(** * Exa comparison demo: text cleaning, search wrappers and the /compare handler

    A shallow embedding of [utils/exa_client.py], [utils/traditional_search.py]
    and [app.py], and the properties of the specification checked against it.

    Python strings are sequences of code points; here a string is a list of
    8-bit characters read as the code points 0..255.  The classes [\s] and
    [\w] follow the Unicode classification of these code points, as the [re]
    module does for [str] patterns. *)

From Stdlib Require Import List Ascii String ZArith Lia Bool Arith.
Import ListNotations.

Set Implicit Arguments.
Set Warnings "-register-all".

(** ** Strings *)

Definition str := list ascii.

(** A string literal of the source. *)
Definition lit (s : string) : str := list_ascii_of_string s.

Definition LF : ascii := "010"%char.
Definition TAB : ascii := "009"%char.

(** [str.isspace] on one code point, which is also the class [\s]. *)
Definition is_space (a : ascii) : bool :=
  let n := nat_of_ascii a in
  ((9 <=? n) && (n <=? 13)) || ((28 <=? n) && (n <=? 32))
  || (n =? 133) || (n =? 160).

(** The class [\w]: alphanumeric code points and the underscore. *)
Definition is_word (a : ascii) : bool :=
  let n := nat_of_ascii a in
  ((48 <=? n) && (n <=? 57)) || ((65 <=? n) && (n <=? 90))
  || ((97 <=? n) && (n <=? 122)) || (n =? 95)
  || (n =? 170) || (n =? 178) || (n =? 179) || (n =? 181) || (n =? 185)
  || (n =? 186) || ((188 <=? n) && (n <=? 190))
  || ((192 <=? n) && (n <=? 214)) || ((216 <=? n) && (n <=? 246))
  || (248 <=? n).

Fixpoint lstrip (s : str) : str :=
  match s with
  | a :: s' => if is_space a then lstrip s' else s
  | [] => []
  end.

Definition rstrip (s : str) : str := rev (lstrip (rev s)).

(** [s.strip()] *)
Definition strip (s : str) : str := rstrip (lstrip s).

(** [s.split(sep)] for a separator of one character. *)
Fixpoint split (sep : ascii) (s : str) : list str :=
  match s with
  | [] => [[]]
  | a :: s' =>
      if Ascii.eqb a sep then [] :: split sep s'
      else match split sep s' with
           | l :: ls => (a :: l) :: ls
           | [] => [[a]]
           end
  end.

(** [sep.join(parts)] *)
Fixpoint join (sep : str) (parts : list str) : str :=
  match parts with
  | [] => []
  | [p] => p
  | p :: ps => p ++ sep ++ join sep ps
  end.

(** The truth value of a string. *)
Definition nonempty (s : str) : bool :=
  match s with
  | [] => false
  | _ :: _ => true
  end.

(** [c in s] for one character. *)
Definition contains (c : ascii) (s : str) : bool := existsb (Ascii.eqb c) s.

(** [s.startswith(c)] for one character. *)
Definition startswith (c : ascii) (s : str) : bool :=
  match s with
  | a :: _ => Ascii.eqb a c
  | [] => false
  end.

(** ** Regular expressions of the [re] module

    Every pattern of the program is a sequence of greedy repetitions of a
    character class, anchors, look-around assertions on [\w] and at most one
    capturing group.  [exec] is the backtracking matcher: a repetition takes
    as many characters as it can and gives them back one at a time. *)

Module Re.

Definition charclass := ascii -> bool.

Inductive item : Type :=
| Rep (c : charclass) (lo : nat) (hi : option nat)  (* c{lo,hi}, greedy *)
| Bol                     (* ^ under re.MULTILINE *)
| Bos                     (* ^ *)
| Eos                     (* $ *)
| NotWordBefore           (* (?<!\w) *)
| NotWordAfter            (* (?!\w) *)
| GOpen                   (* ( *)
| GClose.                 (* ) *)

Definition pattern := list item.

Definition chr (a : ascii) : charclass := Ascii.eqb a.
Definition neg (c : charclass) : charclass := fun a => negb (c a).
Definition oneof (s : string) : charclass :=
  fun a => existsb (Ascii.eqb a) (lit s).
Definition union (c d : charclass) : charclass := fun a => c a || d a.

Definition One (c : charclass) : item := Rep c 1 (Some 1).
Definition Star (c : charclass) : item := Rep c 0 None.
Definition Plus (c : charclass) : item := Rep c 1 None.
Definition Opt (c : charclass) : item := Rep c 0 (Some 1).
Definition AtLeast (n : nat) (c : charclass) : item := Rep c n None.
Definition L (a : ascii) : item := One (chr a).

(** What a successful match records: where it ends and where group 1 lies,
    as offsets from the start of the match. *)
Record capture : Type := { m_end : nat; g_start : option nat; g_end : option nat }.

(** Length of the longest prefix of [s] in the class [c]. *)
Fixpoint span (c : charclass) (s : str) : nat :=
  match s with
  | a :: s' => if c a then S (span c s') else 0
  | [] => 0
  end.

Definition run (c : charclass) (hi : option nat) (s : str) : nat :=
  match hi with
  | Some h => Nat.min h (span c s)
  | None => span c s
  end.

(** The character before the position reached after [k] characters of [s]. *)
Definition prev_at (prev : option ascii) (s : str) (k : nat) : option ascii :=
  match k with
  | 0 => prev
  | S k' => nth_error s k'
  end.

(** Greedy choice: [f k] for the largest [k], then for smaller ones, never
    below [lo]. *)
Fixpoint try_down (f : nat -> option capture) (lo k : nat) : option capture :=
  if k <? lo then None
  else match f k with
       | Some r => Some r
       | None => match k with
                 | 0 => None
                 | S k' => try_down f lo k'
                 end
       end.

Definition at_line_start (prev : option ascii) : bool :=
  match prev with
  | None => true
  | Some a => Ascii.eqb a LF
  end.

Definition at_end (s : str) : bool :=
  match s with
  | [] => true
  | [a] => Ascii.eqb a LF
  | _ => false
  end.

Definition word_opt (o : option ascii) : bool :=
  match o with
  | Some a => is_word a
  | None => false
  end.

(** [exec p must_advance prev s pos]: match [p] against [s], the text from
    the current position on; [prev] is the character before it and [pos] the
    number of characters matched so far.  With [must_advance] an empty
    match is refused. *)
Fixpoint exec (p : pattern) (must_advance : bool) (prev : option ascii)
         (s : str) (pos : nat) : option capture :=
  match p with
  | [] =>
      if must_advance && (pos =? 0) then None
      else Some {| m_end := pos; g_start := None; g_end := None |}
  | Rep c lo hi :: p' =>
      try_down
        (fun k => exec p' must_advance (prev_at prev s k) (skipn k s) (pos + k))
        lo (run c hi s)
  | Bol :: p' =>
      if at_line_start prev then exec p' must_advance prev s pos else None
  | Bos :: p' =>
      match prev with
      | None => exec p' must_advance prev s pos
      | Some _ => None
      end
  | Eos :: p' =>
      if at_end s then exec p' must_advance prev s pos else None
  | NotWordBefore :: p' =>
      if word_opt prev then None else exec p' must_advance prev s pos
  | NotWordAfter :: p' =>
      if word_opt (hd_error s) then None else exec p' must_advance prev s pos
  | GOpen :: p' =>
      match exec p' must_advance prev s pos with
      | Some r => Some {| m_end := m_end r; g_start := Some pos; g_end := g_end r |}
      | None => None
      end
  | GClose :: p' =>
      match exec p' must_advance prev s pos with
      | Some r => Some {| m_end := m_end r; g_start := g_start r; g_end := Some pos |}
      | None => None
      end
  end.

(** [re.match(p, s)] as a truth value. *)
Definition matches (p : pattern) (s : str) : bool :=
  match exec p false None s 0 with
  | Some _ => true
  | None => false
  end.

(** Replacement templates: literal text and [\1]. *)
Inductive titem : Type :=
| TLit (t : str)
| TGroup1.

Definition template := list titem.

Definition group1 (s : str) (r : capture) : str :=
  match g_start r, g_end r with
  | Some b, Some e => firstn (e - b) (skipn b s)
  | _, _ => []
  end.

Definition expand (t : template) (s : str) (r : capture) : str :=
  flat_map (fun i => match i with
                     | TLit x => x
                     | TGroup1 => group1 s r
                     end) t.

(** The scan of [re.sub]: [skip] characters of the last match are still to
    be passed over.  An empty match is replaced and a non-empty one is then
    looked for at the same place, as CPython does since 3.7. *)
Fixpoint sub_walk (p : pattern) (t : template) (prev : option ascii)
         (s : str) (skip : nat) : str :=
  match s with
  | [] =>
      match skip with
      | 0 => match exec p false prev [] 0 with
             | Some r => expand t [] r
             | None => []
             end
      | S _ => []
      end
  | a :: s' =>
      match skip with
      | S k => sub_walk p t (Some a) s' k
      | 0 =>
          match exec p false prev s 0 with
          | Some r =>
              match m_end r with
              | S e => expand t s r ++ sub_walk p t (Some a) s' e
              | 0 =>
                  expand t s r ++
                  match exec p true prev s 0 with
                  | Some r' =>
                      expand t s r' ++ sub_walk p t (Some a) s' (pred (m_end r'))
                  | None => a :: sub_walk p t (Some a) s' 0
                  end
              end
          | None => a :: sub_walk p t (Some a) s' 0
          end
      end
  end.

(** [re.sub(p, t, s)] *)
Definition sub (p : pattern) (t : template) (s : str) : str :=
  sub_walk p t None s 0.

End Re.

Import Re.

(** ** The patterns of [utils/exa_client.py] *)

Module Pat.

Definition ws : charclass := is_space.
Definition G1 : template := [TGroup1].
Definition Drop : template := [].
Definition T (s : string) : template := [TLit (lit s)].

(** Line 22: [!], then the alternative text in square brackets, captured
    and possibly empty, then a non-empty target in parentheses. *)
Definition IMAGE : pattern :=
  [L "!"; L "["; GOpen; Star (neg (chr "]")); GClose; L "]";
   L "("; Plus (neg (chr ")")); L ")"].

(** r"\[([^\]]+)\]\([^)]+\)" *)
Definition LINK : pattern :=
  [L "["; GOpen; Plus (neg (chr "]")); GClose; L "]";
   L "("; Plus (neg (chr ")")); L ")"].

(** r"^#{1,6}\s*" with re.MULTILINE *)
Definition HEADER : pattern := [Bol; Rep (chr "#") 1 (Some 6); Star ws].

(** r"\*\*([^*]+)\*\*" *)
Definition BOLD_STAR : pattern :=
  [L "*"; L "*"; GOpen; Plus (neg (chr "*")); GClose; L "*"; L "*"].

(** r"__([^_]+)__" *)
Definition BOLD_UNDER : pattern :=
  [L "_"; L "_"; GOpen; Plus (neg (chr "_")); GClose; L "_"; L "_"].

(** r"\*([^*]+)\*" *)
Definition ITALIC_STAR : pattern :=
  [L "*"; GOpen; Plus (neg (chr "*")); GClose; L "*"].

(** r"(?<!\w)_([^_]+)_(?!\w)" *)
Definition ITALIC_UNDER : pattern :=
  [NotWordBefore; L "_"; GOpen; Plus (neg (chr "_")); GClose; L "_";
   NotWordAfter].

(** r"`([^`]+)`" *)
Definition CODE : pattern :=
  [L "`"; GOpen; Plus (neg (chr "`")); GClose; L "`"].

(** r"^\s*\|[\s\-:|]+\|\s*$" *)
Definition SEPARATOR : pattern :=
  [Bos; Star ws; L "|"; Plus (union ws (oneof "-:|")); L "|"; Star ws; Eos].

(** r"\n{3,}" *)
Definition NEWLINES3 : pattern := [AtLeast 3 (chr LF)].

(** r"[ \t]+" *)
Definition BLANKS : pattern := [Plus (union (chr " ") (chr TAB))].

(** r"\s*\([^()]*\[[^\]]*\]\([^)]+\)[^()]*\)" *)
Definition CITATION_GROUP : pattern :=
  [Star ws; L "("; Star (neg (oneof "()")); L "["; Star (neg (chr "]"));
   L "]"; L "("; Plus (neg (chr ")")); L ")"; Star (neg (oneof "()")); L ")"].

(** r"\s*\[[^\]]*\]\([^)]+\)" *)
Definition CITATION : pattern :=
  [Star ws; L "["; Star (neg (chr "]")); L "]"; L "("; Plus (neg (chr ")"));
   L ")"].

(** r"\s*,\s*\)" *)
Definition COMMA_PAREN : pattern := [Star ws; L ","; Star ws; L ")"].

(** r"\(\s*,?\s*\)" *)
Definition EMPTY_PARENS : pattern :=
  [L "("; Star ws; Opt (chr ","); Star ws; L ")"].

(** r"\s+\)" *)
Definition SPACE_PAREN : pattern := [Plus ws; L ")"].

(** r"([.!?])\s*\)" *)
Definition PUNCT_PAREN : pattern :=
  [GOpen; One (oneof ".!?"); GClose; Star ws; L ")"].

(** r"\)\s*([.!?])" *)
Definition PAREN_PUNCT : pattern :=
  [L ")"; Star ws; GOpen; One (oneof ".!?"); GClose].

(** r"^[\s]*\*\s+" with re.MULTILINE *)
Definition BULLET : pattern := [Bol; Star ws; L "*"; Plus ws].

(** r"#{1,6}\s*" *)
Definition HASHES : pattern := [Rep (chr "#") 1 (Some 6); Star ws].

(** r"\s+([.,!?])" *)
Definition SPACE_PUNCT : pattern :=
  [Plus ws; GOpen; One (oneof ".,!?"); GClose].

(** r"\s{2,}" *)
Definition SPACES2 : pattern := [AtLeast 2 ws].

(** r"\n{2,}" *)
Definition NEWLINES2 : pattern := [AtLeast 2 (chr LF)].

End Pat.

(** ** [clean_markdown_text], on a string *)

(** The loop over the lines of the text (lines 42-55). *)
Fixpoint clean_table_lines (lines : list str) : list str :=
  match lines with
  | [] => []
  | line :: rest =>
      if matches Pat.SEPARATOR line then clean_table_lines rest
      else if contains "|" line && startswith "|" (strip line) then
        let cells :=
          map strip
              (filter (fun cell => nonempty (strip cell))
                      (split "|" line)) in
        match cells with
        | [] => clean_table_lines rest
        | _ => join (lit " - ") cells :: clean_table_lines rest
        end
      else line :: clean_table_lines rest
  end.

(** Lines 42-57. *)
Definition table_stage (text : str) : str :=
  join [LF] (clean_table_lines (split LF text)).

(** The substitutions of lines 28-39: headers, bold, italic, inline code. *)
Definition strip_markers (text : str) : str :=
  let text := sub Pat.HEADER Pat.Drop text in
  let text := sub Pat.BOLD_STAR Pat.G1 text in
  let text := sub Pat.BOLD_UNDER Pat.G1 text in
  let text := sub Pat.ITALIC_STAR Pat.G1 text in
  let text := sub Pat.ITALIC_UNDER Pat.G1 text in
  sub Pat.CODE Pat.G1 text.

(** Lines 60-65. *)
Definition tidy_whitespace (text : str) : str :=
  let text := sub Pat.NEWLINES3 [TLit [LF; LF]] text in
  let text := sub Pat.BLANKS (Pat.T " ") text in
  strip text.

(** Lines 21-65: the body of [clean_markdown_text] once [text] is known to
    be a non-empty string. *)
Definition clean_markdown_str (text : str) : str :=
  let text := sub Pat.IMAGE Pat.G1 text in
  let text := sub Pat.LINK Pat.G1 text in
  let text := strip_markers text in
  let text := table_stage text in
  tidy_whitespace text.

(** ** The answer cleaner of [get_answer], on a string *)

(** Lines 169-170. *)
Definition remove_citations (s : str) : str :=
  let s := sub Pat.CITATION_GROUP Pat.Drop s in
  sub Pat.CITATION Pat.Drop s.

(** Lines 172-176. *)
Definition repair_punctuation (s : str) : str :=
  let s := sub Pat.COMMA_PAREN (Pat.T ")") s in
  let s := sub Pat.EMPTY_PARENS Pat.Drop s in
  let s := sub Pat.SPACE_PAREN (Pat.T ")") s in
  let s := sub Pat.PUNCT_PAREN Pat.G1 s in
  sub Pat.PAREN_PUNCT Pat.G1 s.

(** Lines 178-182. *)
Definition strip_answer_markers (s : str) : str :=
  let s := sub Pat.BOLD_STAR Pat.G1 s in
  let s := sub Pat.ITALIC_STAR Pat.G1 s in
  let s := sub Pat.BULLET Pat.Drop s in
  let s := sub Pat.HASHES Pat.Drop s in
  sub Pat.CODE Pat.G1 s.

(** Lines 184-187. *)
Definition final_cleanup (s : str) : str :=
  let s := sub Pat.SPACE_PUNCT Pat.G1 s in
  let s := sub Pat.SPACES2 (Pat.T " ") s in
  let s := sub Pat.NEWLINES2 [TLit [LF; LF]] s in
  strip s.

(** Lines 169-187. *)
Definition clean_answer_str (raw_answer : str) : str :=
  final_cleanup
    (strip_answer_markers (repair_punctuation (remove_citations raw_answer))).

(** ** Python values

    The values that flow through the wrappers and the handler.  A dictionary
    keeps its keys in insertion order; an object of the provider's client
    library is the list of its attributes.  Numbers other than integers
    (the score of a result) are only passed along and are not modelled. *)

Inductive pyval : Type :=
| PyNone
| PyBool (b : bool)
| PyInt (z : Z)
| PyStr (s : str)
| PyList (l : list pyval)
| PyDict (d : list (string * pyval))
| PyObj (attrs : list (string * pyval)).

Definition pystr (s : string) : pyval := PyStr (lit s).

(** [bool(v)] *)
Definition truthy (v : pyval) : bool :=
  match v with
  | PyNone => false
  | PyBool b => b
  | PyInt z => negb (Z.eqb z 0)
  | PyStr s => nonempty s
  | PyList l => match l with [] => false | _ => true end
  | PyDict d => match d with [] => false | _ => true end
  | PyObj _ => true
  end.

Fixpoint assoc (k : string) (d : list (string * pyval)) : option pyval :=
  match d with
  | [] => None
  | (k', v) :: d' => if String.eqb k k' then Some v else assoc k d'
  end.

Definition keys (d : list (string * pyval)) : list string := map fst d.

(** [getattr(o, name, default)] *)
Definition getattr (o : pyval) (name : string) (default : pyval) : pyval :=
  match o with
  | PyObj attrs => match assoc name attrs with
                   | Some v => v
                   | None => default
                   end
  | _ => default
  end.

(** [hasattr(o, name)] *)
Definition hasattr (o : pyval) (name : string) : bool :=
  match o with
  | PyObj attrs => match assoc name attrs with
                   | Some _ => true
                   | None => false
                   end
  | _ => false
  end.

(** ** Exceptions and calls to the provider *)

Inductive exn_kind : Type := TypeError | ValueError | AttributeError | KeyError.

Inductive exn : Type :=
| Builtin (k : exn_kind)        (* raised by the interpreter *)
| ClientError (msg : str).      (* raised by the provider's client *)

Inductive call : Type :=
| SearchAndContents (query : str) (num_results : Z)
| Answer (query : str).

(** What lies outside the sources: the remote provider, reached through its
    client, the texts the interpreter gives to its own errors and to values
    it formats, [str.title], and the modules [config] and [utils.metrics]. *)
Record world : Type := {
  search_and_contents : str -> Z -> exn + pyval;
  answer : str -> exn + pyval;
  message_of : exn_kind -> str;
  repr : pyval -> str;
  title : str -> str;
  DEFAULT_MAX_RESULTS : Z;
  calculate_exa_metrics : pyval -> pyval;
  calculate_traditional_metrics : pyval -> pyval;
  compare_metrics : pyval -> pyval -> pyval
}.

(** A computation that may raise and that records the calls made to the
    provider. *)
Definition M (A : Type) : Type := list call -> (exn + A) * list call.

Definition ret {A} (a : A) : M A := fun tr => (inr a, tr).
Definition raise {A} (e : exn) : M A := fun tr => (inl e, tr).
Definition bind {A B} (m : M A) (k : A -> M B) : M B :=
  fun tr => match m tr with
            | (inr a, tr') => k a tr'
            | (inl e, tr') => (inl e, tr')
            end.

(** [try: m except Exception as e: h e] *)
Definition try_except {A} (m : M A) (h : exn -> M A) : M A :=
  fun tr => match m tr with
            | (inr a, tr') => (inr a, tr')
            | (inl e, tr') => h e tr'
            end.

Definition lift {A} (r : exn + A) : M A := fun tr => (r, tr).

Notation "x <- m ;; k" := (bind m (fun x => k))
  (at level 61, m at next level, right associativity).

Fixpoint mapM {A B} (f : A -> M B) (l : list A) : M (list B) :=
  match l with
  | [] => ret []
  | a :: l' => b <- f a ;; bs <- mapM f l' ;; ret (b :: bs)
  end.

(** ** [utils/exa_client.py] *)

Section ExaClient.

Variable W : world.

(** [str(e)] *)
Definition str_of_exn (e : exn) : str :=
  match e with
  | Builtin k => message_of W k
  | ClientError msg => msg
  end.

(** [clean_markdown_text]: a false value gives the empty string before any
    pattern is applied; [re.sub] refuses what is not a string. *)
Definition clean_markdown_text (text : pyval) : exn + pyval :=
  if negb (truthy text) then inr (PyStr [])
  else match text with
       | PyStr s => inr (PyStr (clean_markdown_str s))
       | _ => inl (Builtin TypeError)
       end.

(** Iteration over a value, as [for] and [list.extend] do it. *)
Definition iterate (v : pyval) : exn + list pyval :=
  match v with
  | PyList l => inr l
  | PyStr s => inr (map (fun a => PyStr [a]) s)
  | PyDict d => inr (map (fun kv => PyStr (lit (fst kv))) d)
  | _ => inl (Builtin TypeError)
  end.

(** [sep.join(parts)] on values. *)
Fixpoint strings_of (parts : list pyval) : exn + list str :=
  match parts with
  | [] => inr []
  | PyStr s :: rest => match strings_of rest with
                       | inr l => inr (s :: l)
                       | inl e => inl e
                       end
  | _ :: _ => inl (Builtin TypeError)
  end.

Definition client_search_and_contents (query : str) (num_results : Z) : M pyval :=
  fun tr => (search_and_contents W query num_results,
             tr ++ [SearchAndContents query num_results]).

Definition client_answer (query : str) : M pyval :=
  fun tr => (answer W query, tr ++ [Answer query]).

(** Lines 106-119, for one result. *)
Definition format_result (result : pyval) : M pyval :=
  let raw_text := getattr result "text" (PyStr []) in
  clean_text <- lift (clean_markdown_text raw_text) ;;
  ret (PyDict
         [("title", getattr result "title" (pystr "No title"));
          ("url", getattr result "url" (PyStr []));
          ("content", clean_text);
          ("score", if hasattr result "score"
                    then getattr result "score" (PyInt 0) else PyInt 0);
          ("highlights", getattr result "highlights" (PyList []));
          ("published_date", getattr result "published_date" (PyStr []));
          ("author", getattr result "author" (PyStr []))])%string.

(** [result.get('highlights')] *)
Definition dict_get (d : pyval) (k : string) : exn + pyval :=
  match d with
  | PyDict kv => match assoc k kv with
                 | Some v => inr v
                 | None => inr PyNone
                 end
  | _ => inl (Builtin AttributeError)
  end.

(** [d[k]] *)
Definition dict_item (d : pyval) (k : string) : exn + pyval :=
  match d with
  | PyDict kv => match assoc k kv with
                 | Some v => inr v
                 | None => inl (Builtin KeyError)
                 end
  | _ => inl (Builtin TypeError)
  end.

(** Lines 122-125. *)
Fixpoint collect_highlights (results : list pyval) (all_highlights : list pyval)
  : M (list pyval) :=
  match results with
  | [] => ret all_highlights
  | result :: rest =>
      h <- lift (dict_get result "highlights") ;;
      if truthy h then
        hs <- lift (dict_item result "highlights") ;;
        more <- lift (iterate hs) ;;
        collect_highlights rest (all_highlights ++ more)
      else collect_highlights rest all_highlights
  end.

(** [ExaSearchWrapper.search] *)
Definition search (query : str) (max_results : Z) : M pyval :=
  try_except
    (response <- client_search_and_contents query max_results ;;
     results <- (match response with
                 | PyObj attrs =>
                     match assoc "results" attrs with
                     | Some v => ret v
                     | None => raise (Builtin AttributeError)
                     end
                 | _ => raise (Builtin AttributeError)
                 end) ;;
     items <- lift (iterate results) ;;
     formatted <- mapM format_result items ;;
     all_highlights <- collect_highlights formatted [] ;;
     summary <- (match all_highlights with
                 | [] => ret (PyStr [])
                 | _ => parts <- lift (strings_of (firstn 5 all_highlights)) ;;
                        ret (PyStr (join (lit " ") parts))
                 end) ;;
     ret (PyDict [("query", PyStr query);
                  ("answer", summary);
                  ("results", PyList formatted);
                  ("raw_response", response)]%string))
    (fun e =>
       ret (PyDict [("error", PyStr (str_of_exn e));
                    ("query", PyStr query);
                    ("results", PyList [])]%string)).

(** [r >>= k] for results that may be an exception. *)
Definition and_then {A B} (r : exn + A) (k : A -> exn + B) : exn + B :=
  match r with
  | inl e => inl e
  | inr a => k a
  end.

Fixpoint map_exn {A B} (f : A -> exn + B) (l : list A) : exn + list B :=
  match l with
  | [] => inr []
  | a :: l' =>
      and_then (f a) (fun b => and_then (map_exn f l') (fun bs => inr (b :: bs)))
  end.

(** [d.get(k, default)] *)
Definition dict_get_default (d : pyval) (k : string) (default : pyval)
  : exn + pyval :=
  match d with
  | PyDict kv => match assoc k kv with
                 | Some v => inr v
                 | None => inr default
                 end
  | _ => inl (Builtin AttributeError)
  end.

(** [len(v)] *)
Definition py_len (v : pyval) : exn + Z :=
  match v with
  | PyStr s => inr (Z.of_nat (List.length s))
  | PyList l => inr (Z.of_nat (List.length l))
  | PyDict d => inr (Z.of_nat (List.length d))
  | _ => inl (Builtin TypeError)
  end.

(** The loop of a total of lengths: [total += len(result.get(key, ''))]. *)
Fixpoint add_lengths (key : string) (results : list pyval) (total : Z)
  : exn + Z :=
  match results with
  | [] => inr total
  | result :: rest =>
      and_then (dict_get_default result key (PyStr [])) (fun c =>
      and_then (py_len c) (fun n => add_lengths key rest (total + n)%Z))
  end.

(** [ExaSearchWrapper.get_extracted_content_length] *)
Definition get_extracted_content_length (results : pyval) : exn + pyval :=
  and_then (dict_get_default results "results" (PyList [])) (fun rs =>
  and_then (iterate rs) (fun items =>
  and_then (add_lengths "content" items 0) (fun total => inr (PyInt total)))).

(** [ExaSearchWrapper.get_result_urls] *)
Definition get_result_urls (results : pyval) : exn + pyval :=
  and_then (dict_get_default results "results" (PyList [])) (fun rs =>
  and_then (iterate rs) (fun items =>
  and_then (map_exn (fun r => dict_get_default r "url" (PyStr [])) items)
           (fun urls => inr (PyList urls)))).

(** [ExaSearchWrapper.get_answer] *)
Definition get_answer (query : str) : M pyval :=
  try_except
    (response <- client_answer query ;;
     let raw_answer := getattr response "answer" (PyStr []) in
     clean_answer <- (match raw_answer with
                      | PyStr s => ret (clean_answer_str s)
                      | _ => raise (Builtin TypeError)
                      end) ;;
     citations <- lift (iterate (getattr response "citations" (PyList []))) ;;
     let citation_urls := map (fun c => getattr c "url" (PyStr [])) citations in
     ret (PyDict [("answer", PyStr clean_answer);
                  ("citation_urls", PyList citation_urls);
                  ("error", PyNone)]%string))
    (fun e =>
       ret (PyDict [("answer", PyStr []);
                    ("citation_urls", PyList []);
                    ("error", PyStr (str_of_exn e))]%string)).

End ExaClient.

(** ** [utils/traditional_search.py] *)

(** [s.replace(c, t)] for one character [c]. *)
Definition replace (c : ascii) (t : str) (s : str) : str :=
  flat_map (fun a => if Ascii.eqb a c then t else [a]) s.

(** [l[:n]] *)
Definition slice_to {A} (n : Z) (l : list A) : list A :=
  if (0 <=? n)%Z then firstn (Z.to_nat n) l
  else firstn (Z.to_nat (Z.of_nat (List.length l) + n)) l.

Section TraditionalSearch.

Variable W : world.

Definition template_entry (t u sn : str) : pyval :=
  PyDict [("title", PyStr t); ("url", PyStr u); ("snippet", PyStr sn)]%string.

(** [TraditionalSearchMock._generate_mock_results] *)
Definition _generate_mock_results (query : str) (max_results : Z) : list pyval :=
  let Q := title W query in
  let dash := replace " " (lit "-") query in
  let mock_templates :=
    [ template_entry
        (Q ++ lit " - Comprehensive Guide")
        (lit "https://example.com/guide/" ++ dash)
        (lit "Learn about " ++ query ++ lit " in this comprehensive guide. Discover the best practices, tips, and techniques for understanding " ++ query ++ lit "...");
      template_entry
        (lit "Understanding " ++ Q ++ lit ": A Complete Overview")
        (lit "https://docs.example.org/" ++ dash)
        (lit "Everything you need to know about " ++ query ++ lit ". This article covers the fundamentals, advanced concepts, and practical applications...");
      template_entry
        (Q ++ lit " Explained - Tutorial")
        (lit "https://tutorial.site/" ++ replace " " (lit "/") query)
        (lit "A step-by-step tutorial on " ++ query ++ lit ". Perfect for beginners and advanced users alike. Includes examples and best practices...");
      template_entry
        (lit "Latest News and Updates on " ++ Q)
        (lit "https://news.example.com/topics/" ++ dash)
        (lit "Stay up to date with the latest developments in " ++ query ++ lit ". Recent articles, announcements, and industry insights...");
      template_entry
        (Q ++ lit " - Wikipedia")
        (lit "https://wikipedia.org/wiki/" ++ replace " " (lit "_") query)
        (Q ++ lit " refers to... From Wikipedia, the free encyclopedia. This article needs additional citations for verification...");
      template_entry
        (Q ++ lit " Best Practices and Tips")
        (lit "https://medium.com/@author/" ++ dash ++ lit "-best-practices")
        (lit "In this article, we explore the best practices for " ++ query ++ lit ". Learn from industry experts and improve your understanding...");
      template_entry
        (lit "The Ultimate " ++ Q ++ lit " Resource")
        (lit "https://resources.dev/" ++ dash)
        (lit "Your one-stop resource for everything related to " ++ query ++ lit ". Curated links, tutorials, and documentation...");
      template_entry
        (Q ++ lit " FAQ - Frequently Asked Questions")
        (lit "https://faq.example.com/" ++ dash)
        (lit "Find answers to the most common questions about " ++ query ++ lit ". Our FAQ covers basics to advanced topics...");
      template_entry
        (lit "Getting Started with " ++ Q)
        (lit "https://quickstart.io/" ++ dash)
        (lit "New to " ++ query ++ lit "? This getting started guide will help you understand the fundamentals quickly and efficiently...");
      template_entry
        (Q ++ lit " Documentation - Official")
        (lit "https://docs.official.com/" ++ dash)
        (lit "Official documentation for " ++ query ++ lit ". Complete API reference, guides, and examples for developers...") ] in
  slice_to max_results mock_templates.

(** [TraditionalSearchMock.search] *)
Definition traditional_search (query : str) (max_results : Z) : pyval :=
  let mock_results := _generate_mock_results query max_results in
  PyDict [("query", PyStr query);
          ("results", PyList mock_results);
          ("total_results", PyInt (Z.of_nat (List.length mock_results)))]%string.

(** [TraditionalSearchMock.get_snippet_length] *)
Definition get_snippet_length (results : pyval) : exn + pyval :=
  and_then (dict_get_default results "results" (PyList [])) (fun rs =>
  and_then (iterate rs) (fun items =>
  and_then (add_lengths "snippet" items 0) (fun total => inr (PyInt total)))).

(** [TraditionalSearchMock.get_result_urls] *)
Definition traditional_get_result_urls (results : pyval) : exn + pyval :=
  and_then (dict_get_default results "results" (PyList [])) (fun rs =>
  and_then (iterate rs) (fun items =>
  and_then (map_exn (fun r => dict_get_default r "url" (PyStr [])) items)
           (fun urls => inr (PyList urls)))).

End TraditionalSearch.

(** [TraditionalSearchNote.get_workflow_steps] *)
Definition get_workflow_steps : pyval :=
  PyList
    [pystr "Call search API (Google, Bing, SerpAPI)";
     pystr "Get URLs and short snippets";
     pystr "For each URL, you need to scrape the page (requests, selenium), parse HTML (BeautifulSoup, lxml), extract main content (custom logic), clean and format text and handle errors (404s, timeouts, paywalls)";
     pystr "Filter and rank extracted content";
     pystr "Optimize for LLM context window";
     pystr "Finally get RAG-ready content"].

(** [TraditionalSearchNote.get_problems] *)
Definition get_problems : pyval :=
  PyList
    [pystr "Multiple API calls required";
     pystr "Complex scraping logic needed";
     pystr "Error handling for each website";
     pystr "Content extraction varies by site";
     pystr "High latency (serial scraping)";
     pystr "Maintenance burden (site changes)";
     pystr "Rate limiting concerns";
     pystr "Extra infrastructure needed"].

(** ** [app.py] *)





(** What [jsonify] is given, and the status of the answer. *)
Record response : Type := { body : pyval; status : Z }.

Section App.

Variable W : world.

(** The value a formatted string shows. *)
Definition format (v : pyval) : str :=
  match v with
  | PyStr s => s
  | _ => repr W v
  end.

(** ['error' in d] *)
Definition dict_has (d : pyval) (k : string) : exn + bool :=
  match d with
  | PyDict kv => inr (match assoc k kv with Some _ => true | None => false end)
  | _ => inl (Builtin TypeError)
  end.

(** Lines 45-72 of [compare]: the traditional results, the metrics and the
    payload of the answer. *)
Definition comparison_payload (query : str) (max_results : Z)
           (exa_results exa_answer : pyval) : pyval :=
  let traditional_results := traditional_search W query max_results in
  let exa_metrics := calculate_exa_metrics W exa_results in
  let traditional_metrics :=
    calculate_traditional_metrics W traditional_results in
  let comparison := compare_metrics W exa_metrics traditional_metrics in
  let workflow_steps := get_workflow_steps in
  let traditional_problems := get_problems in
  PyDict
    [("query", PyStr query);
     ("exa", PyDict [("results", exa_results);
                     ("metrics", exa_metrics);
                     ("ai_answer", exa_answer)]);
     ("traditional", PyDict [("results", traditional_results);
                             ("metrics", traditional_metrics);
                             ("workflow_steps", workflow_steps);
                             ("problems", traditional_problems)]);
     ("comparison", comparison)]%string.

(** Lines 36-72 of [compare]: what the handler does with the result of the
    search. *)
Definition compare_results (query : str) (max_results : Z) (exa_results : pyval)
  : M response :=
  has_error <- lift (dict_has exa_results "error") ;;
  failed <- (if has_error : bool then
               r <- lift (dict_get exa_results "results") ;;
               ret (negb (truthy r))
             else ret false) ;;
  if failed : bool then
    e <- lift (dict_item exa_results "error") ;;
    ret {| body := PyDict [("error", PyStr (lit "Exa API error: " ++ format e)%list)]%string;
           status := 500 |}
  else
    exa_answer <- get_answer W query ;;
    ret {| body := comparison_payload query max_results exa_results exa_answer;
           status := 200 |}.


End App.

(** * Properties *)

(** ** The matcher *)

Module ReFacts.

Lemma try_down_none (f : nat -> option capture) (lo k : nat) :
  (forall j, lo <= j <= k -> f j = None) -> try_down f lo k = None.
Proof.
  induction k as [|k IH]; intros H; simpl.
  - destruct lo; simpl; [|reflexivity].
    rewrite (H 0) by lia. reflexivity.
  - destruct (S k <? lo) eqn:E; [reflexivity|].
    apply Nat.ltb_ge in E.
    rewrite (H (S k)) by lia.
    apply IH. intros j Hj. apply H. lia.
Qed.

Lemma try_down_first (f : nat -> option capture) (lo k : nat) (r : capture) :
  lo <= k -> f k = Some r -> try_down f lo k = Some r.
Proof.
  intros Hk Hf. destruct k; simpl.
  - assert (lo = 0) by lia. subst. simpl. now rewrite Hf.
  - destruct (S k <? lo) eqn:E.
    + apply Nat.ltb_lt in E. lia.
    + now rewrite Hf.
Qed.

Lemma try_down_some (f : nat -> option capture) (lo k : nat) (r : capture) :
  try_down f lo k = Some r ->
  exists j, lo <= j <= k /\ f j = Some r /\
            forall i, j < i <= k -> f i = None.
Proof.
  induction k as [|k IH]; simpl.
  - destruct lo; simpl; [|discriminate].
    destruct (f 0) eqn:E; [|discriminate].
    intros [= <-]. exists 0. repeat split; auto. intros i Hi. lia.
  - destruct (S k <? lo) eqn:E; [discriminate|].
    apply Nat.ltb_ge in E.
    destruct (f (S k)) eqn:F.
    + intros [= <-]. exists (S k). repeat split; auto. intros i Hi. lia.
    + intros H. destruct (IH H) as (j & Hj & Hfj & Hmax).
      exists j. repeat split; try lia; auto.
      intros i Hi. destruct (Nat.eq_dec i (S k)) as [->|]; auto.
      apply Hmax. lia.
Qed.

Lemma span_le (c : charclass) (s : str) : span c s <= List.length s.
Proof.
  induction s as [|a s IH]; simpl; [lia|]. destruct (c a); simpl; lia.
Qed.

Lemma run_le_span (c : charclass) (hi : option nat) (s : str) :
  run c hi s <= span c s.
Proof. destruct hi; simpl; lia. Qed.

Lemma span_none (c : charclass) (s : str) :
  (forall a, In a s -> c a = false) -> span c s = 0.
Proof.
  destruct s as [|a s]; simpl; auto. intros H. now rewrite (H a) by auto.
Qed.

Lemma In_skipn (A : Type) (k : nat) (l : list A) (a : A) :
  In a (skipn k l) -> In a l.
Proof.
  revert l. induction k; intros [|b l]; simpl; auto.
Qed.

Lemma In_firstn (A : Type) (k : nat) (l : list A) (a : A) :
  In a (firstn k l) -> In a l.
Proof.
  revert l. induction k; intros [|b l]; simpl; auto.
  - contradiction.
  - intros [H|H]; auto.
Qed.

(** A pattern that cannot match without the character [x]. *)
Definition requires (x : ascii) (p : pattern) : Prop :=
  exists lo hi, 1 <= lo /\ In (Rep (chr x) lo hi) p.

Lemma chr_true (x a : ascii) : chr x a = true -> a = x.
Proof. unfold chr. intros H. apply Ascii.eqb_eq in H. auto. Qed.

Lemma exec_absent (x : ascii) (p : pattern) :
  requires x p ->
  forall ma prev s pos, ~ In x s -> exec p ma prev s pos = None.
Proof.
  intros (lo & hi & Hlo & Hin).
  induction p as [|i p IH]; [contradiction|].
  intros ma prev s pos Hx.
  destruct Hin as [->|Hin].
  - simpl.
    assert (E : run (chr x) hi s = 0).
    { pose proof (run_le_span (chr x) hi s) as H.
      rewrite span_none in H; [lia|].
      intros a Ha. destruct (chr x a) eqn:C; auto.
      apply chr_true in C. subst. contradiction. }
    rewrite E. destruct lo; [lia|]. reflexivity.
  - specialize (IH Hin).
    destruct i; simpl; auto.
    + apply try_down_none. intros j _. apply IH.
      intros H. apply Hx. eapply In_skipn; eauto.
    + destruct (at_line_start prev); auto.
    + destruct prev; auto.
    + destruct (at_end s); auto.
    + destruct (word_opt prev); auto.
    + destruct (word_opt (hd_error s)); auto.
    + now rewrite IH.
    + now rewrite IH.
Qed.

(** Without that character in the text, [re.sub] changes nothing. *)
Lemma sub_walk_absent (x : ascii) (p : pattern) (t : template) :
  requires x p ->
  forall s prev, ~ In x s -> sub_walk p t prev s 0 = s.
Proof.
  intros Hp. induction s as [|a s IH]; intros prev Hx; simpl.
  - now rewrite (exec_absent Hp).
  - rewrite (exec_absent Hp) by assumption.
    f_equal. apply IH. intros H. apply Hx. now right.
Qed.

Lemma sub_absent (x : ascii) (p : pattern) (t : template) (s : str) :
  requires x p -> ~ In x s -> sub p t s = s.
Proof. intros. unfold sub. eapply sub_walk_absent; eauto. Qed.

Lemma matches_absent (x : ascii) (p : pattern) (s : str) :
  requires x p -> ~ In x s -> matches p s = false.
Proof. intros Hp Hx. unfold matches. now rewrite (exec_absent Hp). Qed.





End ReFacts.

(** ** Splitting, joining and trimming *)

Module StrFacts.

Lemma split_not_nil (sep : ascii) (s : str) : split sep s <> [].
Proof.
  destruct s as [|a s]; simpl; [discriminate|].
  destruct (Ascii.eqb a sep); [discriminate|].
  destruct (split sep s); discriminate.
Qed.

Lemma join_cons (sep : str) (p : str) (ps : list str) :
  ps <> [] -> join sep (p :: ps) = p ++ sep ++ join sep ps.
Proof. destruct ps; [congruence|reflexivity]. Qed.

(** Joining the pieces of a split gives the text back. *)
Lemma join_split (sep : ascii) (s : str) : join [sep] (split sep s) = s.
Proof.
  induction s as [|a s IH]; [reflexivity|].
  simpl split. destruct (Ascii.eqb a sep) eqn:E.
  - apply Ascii.eqb_eq in E. subst a.
    rewrite join_cons by apply split_not_nil.
    simpl. now rewrite IH.
  - pose proof (split_not_nil sep s) as Hne.
    destruct (split sep s) as [|l ls]; [congruence|].
    destruct ls as [|l' ls].
    + simpl in *. now rewrite IH.
    + rewrite join_cons by discriminate.
      rewrite join_cons in IH by discriminate.
      rewrite <- IH. reflexivity.
Qed.

Lemma In_split (sep : ascii) (s l : str) (a : ascii) :
  In l (split sep s) -> In a l -> In a s.
Proof.
  revert l. induction s as [|b s IH]; intros l; simpl.
  - intros [<-|[]] [].
  - destruct (Ascii.eqb b sep).
    + intros [<-|H] Ha; [contradiction|]. right. eauto.
    + pose proof (split_not_nil sep s) as Hne.
      destruct (split sep s) as [|l0 ls]; [congruence|].
      intros [<-|H] Ha.
      * destruct Ha as [->|Ha]; auto. right. apply (IH l0); simpl; auto.
      * right. apply (IH l); simpl; auto.
Qed.

Lemma lstrip_decomp (s : str) :
  exists pre, s = pre ++ lstrip s /\ forallb is_space pre = true.
Proof.
  induction s as [|a s (pre & E & F)]; simpl.
  - exists []. auto.
  - destruct (is_space a) eqn:Sa.
    + exists (a :: pre). simpl. rewrite Sa, F. split; [now f_equal|reflexivity].
    + exists []. auto.
Qed.

Lemma rstrip_decomp (s : str) :
  exists post, s = rstrip s ++ post /\ forallb is_space post = true.
Proof.
  unfold rstrip. destruct (lstrip_decomp (rev s)) as (pre & E & F).
  exists (rev pre). split.
  - rewrite <- rev_app_distr, <- E. now rewrite rev_involutive.
  - rewrite forallb_forall in *. intros a Ha. apply F. now apply in_rev.
Qed.

Lemma strip_decomp (s : str) :
  exists pre post, s = pre ++ strip s ++ post /\
                   forallb is_space pre = true /\ forallb is_space post = true.
Proof.
  unfold strip.
  destruct (lstrip_decomp s) as (pre & E1 & F1).
  destruct (rstrip_decomp (lstrip s)) as (post & E2 & F2).
  exists pre, post. repeat split; auto. now rewrite <- E2.
Qed.

(** A text that neither starts nor ends with a blank. *)
Definition trimmed (s : str) : Prop :=
  (forall a s', s = a :: s' -> is_space a = false) /\
  (forall a s', s = s' ++ [a] -> is_space a = false).

Lemma lstrip_head (s : str) (a : ascii) (s' : str) :
  lstrip s = a :: s' -> is_space a = false.
Proof.
  induction s as [|b s IH]; simpl; [discriminate|].
  destruct (is_space b) eqn:Sb; auto. intros [= -> ->]. auto.
Qed.

Lemma lstrip_fixed (s : str) :
  (forall a s', s = a :: s' -> is_space a = false) -> lstrip s = s.
Proof.
  destruct s as [|a s]; simpl; auto. intros H. now rewrite (H a s).
Qed.

Lemma rstrip_fixed (s : str) :
  (forall a s', s = s' ++ [a] -> is_space a = false) -> rstrip s = s.
Proof.
  intros H. unfold rstrip. rewrite lstrip_fixed.
  - apply rev_involutive.
  - intros a s' E. apply (H a (rev s')).
    rewrite <- (rev_involutive s), E. reflexivity.
Qed.

Lemma strip_fixed (s : str) : trimmed s -> strip s = s.
Proof.
  intros [H1 H2]. unfold strip. rewrite lstrip_fixed by assumption.
  now apply rstrip_fixed.
Qed.

Lemma rstrip_last (s : str) (a : ascii) (s' : str) :
  rstrip s = s' ++ [a] -> is_space a = false.
Proof.
  unfold rstrip. intros E.
  apply (f_equal (@rev ascii)) in E.
  rewrite rev_involutive, rev_app_distr in E. simpl in E.
  eapply lstrip_head; eauto.
Qed.

Lemma rstrip_head (s : str) (a : ascii) (s' : str) :
  (forall b t, s = b :: t -> is_space b = false) ->
  rstrip s = a :: s' -> is_space a = false.
Proof.
  intros H E. destruct (rstrip_decomp s) as (post & D & _).
  rewrite E in D. simpl in D. eapply H; eauto.
Qed.

Lemma strip_trimmed (s : str) : trimmed (strip s).
Proof.
  unfold strip. split.
  - intros a s' E. eapply rstrip_head; eauto.
    intros b t. apply lstrip_head.
  - intros a s'. apply rstrip_last.
Qed.

Lemma strip_idem (s : str) : strip (strip s) = strip s.
Proof. apply strip_fixed, strip_trimmed. Qed.

End StrFacts.

(** ** Patterns made of one repeated class

    [\n{3,}], [[ \t]+] and the like replace every maximal run of at least
    [lo] characters of a class by a fixed text. *)

Module Collapse.

Import ReFacts.

(** No run of [n] or more characters of the class [c]. *)
Fixpoint no_run (c : charclass) (n : nat) (s : str) : bool :=
  match s with
  | [] => true
  | a :: s' => (span c (a :: s') <? n) && no_run c n s'
  end.

Lemma span_app_le (c : charclass) (s1 s2 : str) :
  span c s1 <= span c (s1 ++ s2).
Proof.
  induction s1 as [|a s1 IH]; simpl; [lia|]. destruct (c a); lia.
Qed.

Lemma no_run_app (c : charclass) (n : nat) (s1 s2 : str) :
  no_run c n (s1 ++ s2) = true -> no_run c n s1 = true /\ no_run c n s2 = true.
Proof.
  induction s1 as [|a s1 IH]; [simpl; auto|].
  change ((a :: s1) ++ s2) with (a :: (s1 ++ s2)).
  cbn [no_run]. rewrite !andb_true_iff, !Nat.ltb_lt.
  intros [H1 H2]. destruct (IH H2) as [H3 H4].
  repeat split; auto.
  pose proof (span_app_le c (a :: s1) s2). simpl in *. lia.
Qed.

Section Single.

Variables (c : charclass) (lo : nat) (r : str).
Hypothesis lo_pos : 1 <= lo.

Let p : pattern := [Rep c lo None].
Let t : template := [TLit r].

Lemma exec_single (prev : option ascii) (s : str) :
  exec p false prev s 0 =
  if lo <=? span c s
  then Some {| m_end := span c s; g_start := None; g_end := None |}
  else None.
Proof.
  unfold p. cbn [exec run]. destruct (lo <=? span c s) eqn:E.
  - apply Nat.leb_le in E. apply try_down_first; auto.
  - apply Nat.leb_gt in E. apply try_down_none. intros j Hj. lia.
Qed.

Lemma expand_single (s : str) (m : capture) : expand t s m = r.
Proof. unfold expand, t. simpl. apply app_nil_r. Qed.

Lemma walk_nil (prev : option ascii) (k : nat) : sub_walk p t prev [] k = [].
Proof.
  destruct k; [|reflexivity].
  cbn [sub_walk]. rewrite exec_single. simpl.
  destruct lo; [lia|reflexivity].
Qed.

Lemma walk_copy (prev : option ascii) (a : ascii) (s : str) :
  span c (a :: s) < lo ->
  sub_walk p t prev (a :: s) 0 = a :: sub_walk p t (Some a) s 0.
Proof.
  intros H. cbn [sub_walk]. rewrite exec_single.
  apply Nat.leb_gt in H. now rewrite H.
Qed.

Lemma walk_match (prev : option ascii) (a : ascii) (s : str) :
  lo <= span c (a :: s) ->
  c a = true /\
  sub_walk p t prev (a :: s) 0 = r ++ sub_walk p t (Some a) s (span c s).
Proof.
  intros H. assert (Ca : c a = true).
  { simpl in H. destruct (c a); auto. lia. }
  split; auto.
  cbn [sub_walk]. rewrite exec_single.
  apply Nat.leb_le in H. rewrite H. cbn [m_end].
  simpl span. rewrite Ca. now rewrite expand_single.
Qed.

(** After a run has been passed over, the output does not start with a
    character of the class. *)
Lemma span_cons (a : ascii) (s : str) :
  span c (a :: s) = if c a then S (span c s) else 0.
Proof. reflexivity. Qed.

Lemma span_after_run (s : str) (prev : option ascii) :
  span c (sub_walk p t prev s (span c s)) = 0.
Proof.
  revert prev. induction s as [|a s IH]; intros prev.
  - now rewrite walk_nil.
  - destruct (c a) eqn:Ca.
    + rewrite (span_cons a s), Ca. cbn [sub_walk]. apply IH.
    + assert (E : span c (a :: s) = 0) by (now rewrite span_cons, Ca).
      rewrite E at 1. rewrite walk_copy by lia.
      now rewrite span_cons, Ca.
Qed.

(** A run too short to match is copied. *)
Lemma span_short_run (s : str) (prev : option ascii) :
  span c s < lo -> span c (sub_walk p t prev s 0) = span c s.
Proof.
  revert prev. induction s as [|a s IH]; intros prev H.
  - now rewrite walk_nil.
  - rewrite walk_copy by assumption.
    simpl in *. destruct (c a); auto.
    f_equal. apply IH. lia.
Qed.

Lemma no_run_junction (n : nat) (x o : str) :
  List.length x < n -> span c o = 0 -> no_run c n o = true ->
  no_run c n (x ++ o) = true.
Proof.
  intros Hx Ho Hn. induction x as [|a x IH]; [assumption|].
  change ((a :: x) ++ o) with (a :: (x ++ o)). cbn [no_run].
  rewrite andb_true_iff. split.
  - apply Nat.ltb_lt.
    assert (forall y, span c (y ++ o) <= List.length y) as B.
    { induction y as [|b y IHy]; simpl; [lia|]. destruct (c b); lia. }
    specialize (B (a :: x)). simpl in *. lia.
  - apply IH. simpl in Hx. lia.
Qed.

(** The output has no run of [n] characters, when the replacement is
    shorter than [n] and [n] is at least the length that is replaced. *)
Lemma no_run_walk (n : nat) :
  lo <= n -> List.length r < n ->
  forall s prev skip, no_run c n (sub_walk p t prev s skip) = true.
Proof.
  intros Hn Hr. induction s as [|a s IH]; intros prev skip.
  - now rewrite walk_nil.
  - destruct skip as [|k]; [|cbn [sub_walk]; apply IH].
    destruct (Nat.le_gt_cases lo (span c (a :: s))) as [H|H].
    + destruct (walk_match prev a s H) as [_ ->].
      apply no_run_junction; auto. apply span_after_run.
    + rewrite walk_copy by assumption.
      cbn [no_run]. rewrite IH, andb_true_r. apply Nat.ltb_lt.
      simpl in *. destruct (c a); [|lia].
      rewrite span_short_run by lia. lia.
Qed.

(** A text without a run of [lo] characters is left as it is. *)
Lemma walk_fixed_short (s : str) (prev : option ascii) :
  no_run c lo s = true -> sub_walk p t prev s 0 = s.
Proof.
  revert prev. induction s as [|a s IH]; intros prev.
  - intros _. apply walk_nil.
  - cbn [no_run]. rewrite andb_true_iff, Nat.ltb_lt. intros [H1 H2].
    rewrite walk_copy by assumption. f_equal. auto.
Qed.

(** The runs of another class [d], of which the replacement has no
    character, get no longer. *)
Section Other.

Variable d : charclass.
Hypothesis r_other : forall b, In b r -> d b = false.
Hypothesis r_not_nil : r <> [].

Lemma span_other_walk (s : str) (prev : option ascii) :
  span d (sub_walk p t prev s 0) <= span d s.
Proof.
  revert prev. induction s as [|a s IH]; intros prev.
  - rewrite walk_nil. simpl. lia.
  - destruct (Nat.le_gt_cases lo (span c (a :: s))) as [H|H].
    + destruct (walk_match prev a s H) as [_ ->].
      destruct r as [|b r']; [congruence|].
      simpl. rewrite (r_other b) by (now left). lia.
    + rewrite walk_copy by assumption. simpl. destruct (d a); [|lia].
      specialize (IH (Some a)). lia.
Qed.

Lemma no_run_prefix_other (n : nat) (x o : str) :
  (forall y, In y x -> d y = false) -> 0 < n ->
  no_run d n o = true -> no_run d n (x ++ o) = true.
Proof.
  intros Hall Hpos Ho. induction x as [|y x IHx]; [assumption|].
  change ((y :: x) ++ o) with (y :: (x ++ o)). cbn [no_run].
  simpl span. rewrite (Hall y) by (now left).
  rewrite IHx.
  - apply andb_true_iff. split; auto. now apply Nat.ltb_lt.
  - intros z Hz. apply Hall. now right.
Qed.

Lemma no_run_other_walk (n : nat) (s : str) :
  forall prev skip,
    no_run d n s = true -> no_run d n (sub_walk p t prev s skip) = true.
Proof.
  induction s as [|a s IH]; intros prev skip.
  - now rewrite walk_nil.
  - cbn [no_run]. rewrite andb_true_iff, Nat.ltb_lt. intros [H1 H2].
    destruct skip as [|k]; [|cbn [sub_walk]; auto].
    destruct (Nat.le_gt_cases lo (span c (a :: s))) as [H|H].
    + destruct (walk_match prev a s H) as [_ ->].
      apply no_run_prefix_other; auto. lia.
    + rewrite walk_copy by assumption. cbn [no_run].
      rewrite IH by assumption. rewrite andb_true_r. apply Nat.ltb_lt.
      pose proof (span_other_walk s (Some a)). simpl in *.
      destruct (d a); lia.
Qed.

End Other.

End Single.

(** A pattern [c+] replaced by one character [x]. *)
Section One.

Variables (c : charclass) (x : ascii).

Let p : pattern := [Rep c 1 None].
Let t : template := [TLit [x]].

Lemma walk1_chars (a : ascii) :
  forall s prev skip,
    In a (sub_walk p t prev s skip) -> a = x \/ (In a s /\ c a = false).
Proof.
  induction s as [|b s IH]; intros prev skip.
  - unfold p, t. rewrite walk_nil by lia. contradiction.
  - destruct skip as [|k].
    + destruct (Nat.le_gt_cases 1 (span c (b :: s))) as [H|H].
      * destruct (@walk_match c 1 [x] (le_n 1) prev b s H) as [_ E].
        unfold p, t. rewrite E. intros [<-|Ha]; auto.
        destruct (IH _ _ Ha) as [|[]]; auto. right. split; auto. now right.
      * unfold p, t. rewrite walk_copy by lia.
        intros [<-|Ha].
        -- right. split; [now left|]. simpl in H. destruct (c b); auto. lia.
        -- destruct (IH _ _ Ha) as [|[]]; auto. right. split; auto. now right.
    + cbn [sub_walk]. intros Ha.
      destruct (IH _ _ Ha) as [|[]]; auto. right. split; auto. now right.
Qed.

Lemma walk1_fixed (s : str) :
  (forall a, In a s -> c a = true -> a = x) -> no_run c 2 s = true ->
  forall prev, sub_walk p t prev s 0 = s.
Proof.
  induction s as [|b s IH]; intros Hx Hn prev.
  - unfold p, t. apply walk_nil. lia.
  - cbn [no_run] in Hn. apply andb_true_iff in Hn. destruct Hn as [H1 H2].
    apply Nat.ltb_lt in H1.
    assert (IH' : forall prev, sub_walk p t prev s 0 = s).
    { apply IH; auto. intros a Ha. apply Hx. now right. }
    destruct (Nat.le_gt_cases 1 (span c (b :: s))) as [H|H].
    + destruct (@walk_match c 1 [x] (le_n 1) prev b s H) as [Cb E].
      unfold p, t. rewrite E.
      assert (span c s = 0) as ->.
      { rewrite span_cons, Cb in H1. lia. }
      fold p t. rewrite IH'. simpl. f_equal. symmetry. apply Hx; auto. now left.
    + unfold p, t. rewrite walk_copy by lia. f_equal. apply IH'.
Qed.

End One.

End Collapse.

(** ** The last stage of the normalizer: lines 60-65 *)

Module Tidy.

Import ReFacts StrFacts Collapse.

Definition newline : charclass := chr LF.
Definition blank : charclass := union (chr " ") (chr TAB).

(** What [tidy_whitespace] leaves: at most two line feeds in a row, single
    spaces as the only blanks, no blank at either end. *)
Definition tidy (y : str) : Prop :=
  no_run newline 3 y = true /\
  no_run blank 2 y = true /\
  (forall a, In a y -> blank a = true -> a = " "%char) /\
  trimmed y.

Lemma tidy_whitespace_tidy (s : str) : tidy (tidy_whitespace s).
Proof.
  unfold tidy_whitespace.
  set (u := sub Pat.NEWLINES3 [TLit [LF; LF]] s).
  set (v := sub Pat.BLANKS (Pat.T " ") u).
  assert (Hu : no_run newline 3 u = true).
  { apply (@no_run_walk newline 3 [LF; LF]); simpl; lia. }
  assert (Hv1 : no_run newline 3 v = true).
  { apply (@no_run_other_walk blank 1 [" "%char]); auto.
    - intros b [<-|[]]. reflexivity.
    - discriminate. }
  assert (Hv2 : no_run blank 2 v = true).
  { apply (@no_run_walk blank 1 [" "%char]); simpl; lia. }
  assert (Hv3 : forall a, In a v -> blank a = true -> a = " "%char).
  { intros a Ha Hb. apply (@walk1_chars blank " "%char) in Ha.
    destruct Ha as [|[_ Hc]]; auto. congruence. }
  destruct (strip_decomp v) as (pre & post & E & _ & _).
  repeat split.
  - rewrite E in Hv1. apply no_run_app in Hv1. destruct Hv1 as [_ Hv1].
    now apply no_run_app in Hv1.
  - rewrite E in Hv2. apply no_run_app in Hv2. destruct Hv2 as [_ Hv2].
    now apply no_run_app in Hv2.
  - intros a Ha. apply Hv3. rewrite E. rewrite !in_app_iff. auto.
  - apply strip_trimmed.
  - apply strip_trimmed.
Qed.

Lemma tidy_whitespace_fixed (y : str) : tidy y -> tidy_whitespace y = y.
Proof.
  intros (H1 & H2 & H3 & H4). unfold tidy_whitespace.
  assert (E1 : sub Pat.NEWLINES3 [TLit [LF; LF]] y = y).
  { apply (@walk_fixed_short newline 3 [LF; LF]); auto. }
  rewrite E1.
  assert (E2 : sub Pat.BLANKS (Pat.T " ") y = y).
  { apply (@walk1_fixed blank " "%char); auto. }
  rewrite E2. now apply strip_fixed.
Qed.

Lemma tidy_whitespace_idem (s : str) :
  tidy_whitespace (tidy_whitespace s) = tidy_whitespace s.
Proof. apply tidy_whitespace_fixed, tidy_whitespace_tidy. Qed.

End Tidy.

(** ** The normalizer on a text without markdown *)

Module Normalizer.

Import ReFacts StrFacts Collapse Tidy.

Ltac needs :=
  exists 1, (Some 1); split; [lia|];
  cbv [Pat.IMAGE Pat.LINK Pat.HEADER Pat.BOLD_STAR Pat.BOLD_UNDER
       Pat.ITALIC_STAR Pat.ITALIC_UNDER Pat.CODE Pat.SEPARATOR Pat.BULLET
       Pat.HASHES L One];
  simpl; tauto.

Lemma image_needs : requires "[" Pat.IMAGE.
Proof. needs. Qed.

Lemma link_needs : requires "[" Pat.LINK.
Proof. needs. Qed.

Lemma header_needs : requires "#" Pat.HEADER.
Proof. exists 1, (Some 6). split; [lia|]. cbv [Pat.HEADER]. simpl. tauto. Qed.

Lemma hashes_needs : requires "#" Pat.HASHES.
Proof. exists 1, (Some 6). split; [lia|]. cbv [Pat.HASHES]. simpl. tauto. Qed.

Lemma bold_star_needs : requires "*" Pat.BOLD_STAR.
Proof. needs. Qed.

Lemma bold_under_needs : requires "_" Pat.BOLD_UNDER.
Proof. needs. Qed.

Lemma italic_star_needs : requires "*" Pat.ITALIC_STAR.
Proof. needs. Qed.

Lemma italic_under_needs : requires "_" Pat.ITALIC_UNDER.
Proof. needs. Qed.

Lemma code_needs : requires "`" Pat.CODE.
Proof. needs. Qed.

Lemma bullet_needs : requires "*" Pat.BULLET.
Proof. needs. Qed.

Lemma separator_needs : requires "|" Pat.SEPARATOR.
Proof. needs. Qed.

(** The characters the normalizer looks for. *)
Definition markdown_char : charclass := oneof "[*_`#|".

Lemma not_markdown (x : ascii) (s : str) :
  (forall a, In a s -> markdown_char a = false) ->
  markdown_char x = true -> ~ In x s.
Proof. intros H Hx Hin. rewrite (H x Hin) in Hx. discriminate. Qed.

Lemma contains_false (c : ascii) (s : str) :
  ~ In c s -> contains c s = false.
Proof.
  intros H. unfold contains. destruct (existsb (Ascii.eqb c) s) eqn:E; auto.
  apply existsb_exists in E. destruct E as (a & Ha & Eq).
  apply Ascii.eqb_eq in Eq. subst. contradiction.
Qed.

Lemma clean_table_lines_absent (lines : list str) :
  (forall l, In l lines -> ~ In "|"%char l) -> clean_table_lines lines = lines.
Proof.
  induction lines as [|line rest IH]; intros H; [reflexivity|].
  cbn [clean_table_lines].
  rewrite (@matches_absent _ _ line separator_needs) by (apply H; now left).
  rewrite contains_false by (apply H; now left).
  cbn [andb]. f_equal. apply IH. intros l Hl. apply H. now right.
Qed.

(** A text without a pipe goes through the table stage unchanged. *)
Lemma table_stage_absent (text : str) :
  ~ In "|"%char text -> table_stage text = text.
Proof.
  intros H. unfold table_stage. rewrite clean_table_lines_absent.
  - apply join_split.
  - intros l Hl Hin. apply H. eapply In_split; eauto.
Qed.

Lemma strip_markers_absent (text : str) :
  ~ In "#"%char text -> ~ In "*"%char text -> ~ In "_"%char text ->
  ~ In "`"%char text -> strip_markers text = text.
Proof.
  intros H1 H2 H3 H4. unfold strip_markers.
  rewrite (@sub_absent _ _ _ _ header_needs) by assumption.
  rewrite (@sub_absent _ _ _ _ bold_star_needs) by assumption.
  rewrite (@sub_absent _ _ _ _ bold_under_needs) by assumption.
  rewrite (@sub_absent _ _ _ _ italic_star_needs) by assumption.
  rewrite (@sub_absent _ _ _ _ italic_under_needs) by assumption.
  now rewrite (@sub_absent _ _ _ _ code_needs) by assumption.
Qed.

(** The fixed points of the normalizer: tidy texts without markdown. *)
Lemma clean_markdown_str_fixed (y : str) :
  (forall a, In a y -> markdown_char a = false) -> tidy y ->
  clean_markdown_str y = y.
Proof.
  intros Hm Ht. unfold clean_markdown_str.
  assert (forall x, markdown_char x = true -> ~ In x y) as N
      by (intros x; now apply not_markdown).
  rewrite (@sub_absent _ _ _ _ image_needs) by (now apply N).
  rewrite (@sub_absent _ _ _ _ link_needs) by (now apply N).
  rewrite strip_markers_absent by (now apply N).
  rewrite table_stage_absent by (now apply N).
  now apply tidy_whitespace_fixed.
Qed.

Lemma clean_markdown_str_tidy (x : str) : tidy (clean_markdown_str x).
Proof. unfold clean_markdown_str. apply tidy_whitespace_tidy. Qed.

Lemma clean_markdown_text_str (x : str) :
  clean_markdown_text (PyStr x) = inr (PyStr (clean_markdown_str x)).
Proof. destruct x; reflexivity. Qed.

End Normalizer.

(** ** What the matcher accepts *)

Module Accept.

Import ReFacts.

(** [accepts p prev s]: some choice of the numbers of repetitions makes [p]
    match at the start of [s]. *)
Fixpoint accepts (p : pattern) (prev : option ascii) (s : str) : Prop :=
  match p with
  | [] => True
  | Rep c lo hi :: p' =>
      exists k, lo <= k <= run c hi s /\
                accepts p' (prev_at prev s k) (skipn k s)
  | Bol :: p' => at_line_start prev = true /\ accepts p' prev s
  | Bos :: p' => prev = None /\ accepts p' prev s
  | Eos :: p' => at_end s = true /\ accepts p' prev s
  | NotWordBefore :: p' => word_opt prev = false /\ accepts p' prev s
  | NotWordAfter :: p' => word_opt (hd_error s) = false /\ accepts p' prev s
  | GOpen :: p' => accepts p' prev s
  | GClose :: p' => accepts p' prev s
  end.

Lemma try_down_none_inv (f : nat -> option capture) (lo k : nat) :
  try_down f lo k = None -> forall j, lo <= j <= k -> f j = None.
Proof.
  induction k as [|k IH]; simpl.
  - destruct lo; simpl.
    + destruct (f 0) eqn:E; [discriminate|]. intros _ j Hj.
      assert (j = 0) by lia. now subst.
    + intros _ j Hj. lia.
  - destruct (S k <? lo) eqn:E.
    + apply Nat.ltb_lt in E. intros _ j Hj. lia.
    + destruct (f (S k)) eqn:F; [discriminate|].
      intros H j Hj. destruct (Nat.eq_dec j (S k)) as [->|]; auto.
      apply IH; auto. lia.
Qed.

(** The backtracking search finds a match exactly when there is one. *)
Lemma exec_accepts (p : pattern) :
  forall prev s pos,
    (exists r, exec p false prev s pos = Some r) <-> accepts p prev s.
Proof.
  induction p as [|i p IH]; intros prev s pos.
  - simpl. split; eauto.
  - destruct i; cbn [exec accepts].
    + split.
      * intros [r H]. apply try_down_some in H.
        destruct H as (j & Hj & Hf & _). exists j. split; auto.
        apply (IH _ _ (pos + j)). eauto.
      * intros (k & Hk & Ha). apply (IH _ _ (pos + k)) in Ha.
        destruct Ha as [r Hr].
        destruct (try_down _ lo (run c hi s)) eqn:E; eauto.
        eapply try_down_none_inv in E; eauto.
        simpl in E. congruence.
    + destruct (at_line_start prev); rewrite <- (IH prev s pos).
      * split; [intros H; split; auto | intros [_ H]; auto].
      * split; [intros [r H]; discriminate | intros [H _]; discriminate].
    + destruct prev; rewrite <- (IH _ s pos).
      * split; [intros [r H]; discriminate | intros [H _]; discriminate].
      * split; [intros H; split; auto | intros [_ H]; auto].
    + destruct (at_end s); rewrite <- (IH prev s pos).
      * split; [intros H; split; auto | intros [_ H]; auto].
      * split; [intros [r H]; discriminate | intros [H _]; discriminate].
    + destruct (word_opt prev); rewrite <- (IH prev s pos).
      * split; [intros [r H]; discriminate | intros [H _]; discriminate].
      * split; [intros H; split; auto | intros [_ H]; auto].
    + destruct (word_opt (hd_error s)); rewrite <- (IH prev s pos).
      * split; [intros [r H]; discriminate | intros [H _]; discriminate].
      * split; [intros H; split; auto | intros [_ H]; auto].
    + rewrite <- (IH prev s pos). destruct (exec p false prev s pos).
      * split; eauto.
      * split; intros [r H]; discriminate.
    + rewrite <- (IH prev s pos). destruct (exec p false prev s pos).
      * split; eauto.
      * split; intros [r H]; discriminate.
Qed.

Lemma matches_accepts (p : pattern) (s : str) :
  matches p s = true <-> accepts p None s.
Proof.
  rewrite <- (exec_accepts p None s 0). unfold matches.
  destruct (exec p false None s 0); split; eauto; try discriminate.
  intros [r H]. discriminate.
Qed.

Lemma span_firstn (c : charclass) (s : str) (k : nat) :
  k <= span c s ->
  forallb c (firstn k s) = true /\ List.length (firstn k s) = k.
Proof.
  revert s. induction k as [|k IH]; intros s H; [simpl; auto|].
  destruct s as [|a s]; simpl in H; [lia|].
  destruct (c a) eqn:Ca; [|lia].
  destruct (IH s) as [H1 H2]; [lia|].
  simpl. rewrite Ca, H1, H2. auto.
Qed.

Lemma span_app_all (c : charclass) (x y : str) :
  forallb c x = true -> List.length x <= span c (x ++ y).
Proof.
  induction x as [|a x IH]; simpl; [lia|].
  intros H. apply andb_true_iff in H. destruct H as [Ca H].
  rewrite Ca. specialize (IH H). lia.
Qed.

Lemma skipn_app_length (A : Type) (x y : list A) :
  skipn (List.length x) (x ++ y) = y.
Proof. induction x; simpl; auto. Qed.

(** One given character: it is there, and it is passed. *)
Lemma one_char (x : ascii) (s : str) (k : nat) :
  1 <= k <= run (chr x) (Some 1) s -> k = 1 /\ exists s', s = x :: s'.
Proof.
  unfold run. intros H. destruct s as [|a s]; simpl in H; [lia|].
  destruct (chr x a) eqn:E; [|lia].
  apply chr_true in E. subst. split; [lia|eauto].
Qed.

Lemma one_char_run (x : ascii) (s : str) : 1 <= run (chr x) (Some 1) (x :: s).
Proof. unfold run, chr. simpl. rewrite Ascii.eqb_refl. lia. Qed.

End Accept.

(** ** The table stage, line by line *)

Module Table.

Import ReFacts StrFacts Accept.

(** The characters of a separator row: blanks, dashes, colons, pipes. *)
Definition separator_char : charclass := union is_space (oneof "-:|").

(** A separator row as the code takes it: once trimmed, the line starts
    with a pipe, ends with another pipe, and has between them one or more
    separator characters. *)
Definition separator_row (line : str) : bool :=
  match strip line with
  | "|"%char :: rest =>
      match rev rest with
      | "|"%char :: mid => nonempty mid && forallb separator_char mid
      | _ => false
      end
  | _ => false
  end.

(** A cell with something else than blanks in it. *)
Definition nonblank (cell : str) : bool :=
  existsb (fun a => negb (is_space a)) cell.

(** What becomes of one line. *)
Definition table_row (line : str) : list str :=
  if separator_row line then []
  else if startswith "|" (lstrip line) then
    match map strip (filter nonblank (split "|" line)) with
    | [] => []
    | cells => [join (lit " - ") cells]
    end
  else [line].

(** The same, as a decomposition of the line. *)
Definition separator_shape (line : str) : Prop :=
  exists w1 m w2,
    line = w1 ++ "|"%char :: m ++ "|"%char :: w2 /\
    forallb is_space w1 = true /\ m <> [] /\
    forallb separator_char m = true /\ forallb is_space w2 = true.

Lemma at_end_space (s : str) : at_end s = true -> forallb is_space s = true.
Proof.
  destruct s as [|a [|b s]]; simpl; try discriminate; auto.
  intros H. apply Ascii.eqb_eq in H. subst. reflexivity.
Qed.

Lemma firstn_skipn_eq (s : str) (k : nat) : s = firstn k s ++ skipn k s.
Proof. symmetry. apply firstn_skipn. Qed.

Lemma accepts_separator (line : str) :
  accepts Pat.SEPARATOR None line <-> separator_shape line.
Proof.
  unfold Pat.SEPARATOR, Pat.ws, L, One, Star, Plus. cbn [accepts]. split.
  - intros (_ & k1 & Hk1 & k2 & Hk2 & k3 & Hk3 & k4 & Hk4 & k5 & Hk5 & He & _).
    apply one_char in Hk2. destruct Hk2 as [-> [s2 E2]].
    set (s1 := skipn k1 line) in *.
    change (skipn 1 s1) with (tl s1) in *. rewrite E2 in *. cbn [tl] in *.
    apply one_char in Hk4. destruct Hk4 as [-> [s4 E4]].
    change (skipn 1 (skipn k3 s2)) with (tl (skipn k3 s2)) in *.
    rewrite E4 in *. cbn [tl] in *.
    cbn [run] in Hk1, Hk3, Hk5.
    destruct (@span_firstn is_space line k1) as [F1 _]; [lia|].
    destruct (@span_firstn (union is_space (oneof "-:|")) s2 k3) as [F3 L3];
      [lia|].
    destruct (@span_firstn is_space s4 k5) as [F5 _]; [lia|].
    exists (firstn k1 line), (firstn k3 s2), s4. repeat split; auto.
    + rewrite (firstn_skipn_eq line k1) at 1. fold s1. rewrite E2.
      rewrite (firstn_skipn_eq s2 k3) at 1. rewrite E4.
      reflexivity.
    + intros N. rewrite N in L3. simpl in L3. lia.
    + rewrite (firstn_skipn_eq s4 k5), forallb_app, F5.
      now rewrite (at_end_space _ He).
  - intros (w1 & m & w2 & -> & F1 & Hm & F3 & F5).
    split; auto.
    exists (List.length w1). split.
    { cbn [run]. split; [lia|]. now apply span_app_all. }
    rewrite skipn_app_length.
    exists 1. split; [split; [lia|apply one_char_run]|].
    cbn [skipn].
    exists (List.length m). split.
    { cbn [run]. split; [|now apply span_app_all].
      destruct m; [congruence|simpl; lia]. }
    rewrite skipn_app_length.
    exists 1. split; [split; [lia|apply one_char_run]|].
    cbn [skipn].
    exists (List.length w2). split.
    { cbn [run]. split; [lia|].
      rewrite <- (app_nil_r w2) at 2. now apply span_app_all. }
    rewrite <- (app_nil_r w2) at 2. rewrite skipn_app_length.
    simpl. auto.
Qed.

Lemma lstrip_app_space (w z : str) :
  forallb is_space w = true -> lstrip (w ++ z) = lstrip z.
Proof.
  induction w as [|a w IH]; simpl; auto.
  intros H. apply andb_true_iff in H. destruct H as [-> H]. auto.
Qed.

Lemma forallb_rev (f : ascii -> bool) (l : str) :
  forallb f (rev l) = forallb f l.
Proof.
  destruct (forallb f l) eqn:E.
  - rewrite forallb_forall in *. intros a Ha. apply E. now apply in_rev.
  - destruct (forallb f (rev l)) eqn:E'; auto.
    rewrite forallb_forall in E'.
    assert (forallb f l = true); [|congruence].
    apply forallb_forall. intros a Ha. apply E'. now apply in_rev in Ha.
Qed.

Lemma separator_shape_row (line : str) :
  separator_shape line <-> separator_row line = true.
Proof.
  unfold separator_row. split.
  - intros (w1 & m & w2 & -> & F1 & Hm & F3 & F5).
    assert (E : strip (w1 ++ "|"%char :: m ++ "|"%char :: w2)
                = "|"%char :: m ++ ["|"%char]).
    { unfold strip. rewrite lstrip_app_space by assumption.
      cbn [lstrip]. change (is_space "|") with false. cbv iota.
      unfold rstrip.
      replace (rev ("|"%char :: m ++ "|"%char :: w2))
        with (rev w2 ++ "|"%char :: rev ("|"%char :: m)).
      - rewrite lstrip_app_space by (now rewrite forallb_rev).
        cbn [lstrip]. change (is_space "|") with false. cbv iota.
        cbn [rev]. rewrite rev_app_distr. simpl. now rewrite rev_involutive.
      - change ("|"%char :: m ++ "|"%char :: w2)
          with (("|"%char :: m) ++ "|"%char :: w2).
        rewrite rev_app_distr. simpl. now rewrite <- !app_assoc. }
    rewrite E. rewrite rev_app_distr. simpl.
    rewrite forallb_rev, F3.
    destruct m; [congruence|]. simpl. destruct (rev m ++ [a]) eqn:R; auto.
    destruct (rev m); discriminate.
  - destruct (strip_decomp line) as (pre & post & E & F1 & F2).
    destruct (strip line) as [|a rest]; [discriminate|].
    destruct (Ascii.eqb a "|") eqn:Ea.
    + apply Ascii.eqb_eq in Ea. subst a.
      destruct (rev rest) as [|b mid] eqn:R.
      * discriminate.
      * destruct (Ascii.eqb b "|") eqn:Eb.
        -- apply Ascii.eqb_eq in Eb. subst b.
           intros H. apply andb_true_iff in H. destruct H as [N F].
           assert (rest = rev mid ++ ["|"%char]) as ->.
           { rewrite <- (rev_involutive rest), R. reflexivity. }
           exists pre, (rev mid), post. repeat split; auto.
           ++ rewrite E. simpl. now rewrite <- app_assoc.
           ++ intros Z. destruct mid; [discriminate|].
              simpl in Z. destruct (rev mid); discriminate.
           ++ now rewrite forallb_rev.
        -- intros H. exfalso. revert H Eb. clear.
           destruct b as [[] [] [] [] [] [] [] []]; simpl; congruence.
    + intros H. exfalso. revert H Ea. clear.
      destruct a as [[] [] [] [] [] [] [] []]; simpl; congruence.
Qed.

(** The pattern of line 46 and the description agree. *)
Lemma matches_separator (line : str) :
  matches Pat.SEPARATOR line = separator_row line.
Proof.
  destruct (separator_row line) eqn:E.
  - apply matches_accepts, accepts_separator, separator_shape_row, E.
  - destruct (matches Pat.SEPARATOR line) eqn:M; auto.
    apply matches_accepts, accepts_separator, separator_shape_row in M.
    congruence.
Qed.

Lemma data_row_test (line : str) :
  contains "|" line && startswith "|" (strip line)
  = startswith "|" (lstrip line).
Proof.
  unfold strip.
  destruct (lstrip_decomp line) as (pre & E & _).
  destruct (rstrip_decomp (lstrip line)) as (post & D & F).
  destruct (lstrip line) as [|a z] eqn:L.
  - destruct (rstrip []) eqn:R; [|discriminate]. simpl. apply andb_false_r.
  - destruct (rstrip (a :: z)) as [|b y] eqn:R.
    + simpl in D. subst post. simpl in F.
      apply andb_true_iff in F. destruct F as [F _].
      rewrite (lstrip_head _ L) in F. discriminate.
    + simpl in D. injection D as -> _. cbn [startswith].
      destruct (Ascii.eqb b "|") eqn:Eb; [|apply andb_false_r].
      apply Ascii.eqb_eq in Eb. subst b. rewrite andb_true_r.
      unfold contains. apply existsb_exists. exists "|"%char. split; auto.
      rewrite E. apply in_or_app. right. now left.
Qed.

Lemma nonblank_strip (cell : str) : nonempty (strip cell) = nonblank cell.
Proof.
  unfold nonblank.
  destruct (strip_decomp cell) as (pre & post & E & F1 & F2).
  pose proof (strip_trimmed cell) as [T _].
  destruct (strip cell) as [|a y].
  - simpl in *. subst cell. symmetry.
    destruct (existsb _ (pre ++ post)) eqn:X; auto.
    apply existsb_exists in X. destruct X as (b & Hb & Nb).
    rewrite forallb_forall in F1, F2.
    apply in_app_or in Hb. destruct Hb as [Hb|Hb];
      [rewrite (F1 _ Hb) in Nb | rewrite (F2 _ Hb) in Nb]; discriminate.
  - simpl. symmetry. apply existsb_exists. exists a. split.
    + rewrite E. apply in_or_app. right. now left.
    + now rewrite (T a y).
Qed.

(** The loop of lines 44-55 treats every line on its own, as [table_row]
    says. *)
Lemma clean_table_lines_rows (lines : list str) :
  clean_table_lines lines = flat_map table_row lines.
Proof.
  induction lines as [|line rest IH]; [reflexivity|].
  cbn [clean_table_lines flat_map]. unfold table_row at 1.
  rewrite matches_separator, data_row_test.
  destruct (separator_row line); [exact IH|].
  destruct (startswith "|" (lstrip line)).
  - rewrite (filter_ext _ nonblank nonblank_strip), IH.
    destruct (map strip (filter nonblank (split "|" line))); reflexivity.
  - now rewrite IH.
Qed.

End Table.

(** ** The markdown stage of the answer cleaner: lines 178-182 *)

Module AnswerMarkers.

Import ReFacts Normalizer.

(** Nothing to do on a text without asterisk, hash and backtick. *)
Lemma strip_answer_markers_absent (u : str) :
  ~ In "*"%char u -> ~ In "#"%char u -> ~ In "`"%char u ->
  strip_answer_markers u = u.
Proof.
  intros H1 H2 H3. unfold strip_answer_markers.
  rewrite (@sub_absent _ _ _ _ bold_star_needs) by assumption.
  rewrite (@sub_absent _ _ _ _ italic_star_needs) by assumption.
  rewrite (@sub_absent _ _ _ _ bullet_needs) by assumption.
  rewrite (@sub_absent _ _ _ _ hashes_needs) by assumption.
  now rewrite (@sub_absent _ _ _ _ code_needs) by assumption.
Qed.





End AnswerMarkers.

(** ** The wrappers and the handler *)

Module Wrappers.

Lemma bind_inr (A B : Type) (m : M A) (k : A -> M B) tr (b : B) tr' :
  bind m k tr = (inr b, tr') ->
  exists a tr1, m tr = (inr a, tr1) /\ k a tr1 = (inr b, tr').
Proof.
  unfold bind. destruct (m tr) as [[e|a] tr1]; [discriminate|eauto].
Qed.

Lemma lift_inr (A : Type) (r : exn + A) tr (a : A) tr' :
  lift r tr = (inr a, tr') -> r = inr a /\ tr' = tr.
Proof. unfold lift. intros [= -> ->]. auto. Qed.

(** [lift], [mapM] and [collect_highlights] make no call. *)
Lemma lift_trace (A : Type) (r : exn + A) tr : snd (lift r tr) = tr.
Proof. reflexivity. Qed.

Lemma format_result_trace (result : pyval) tr :
  snd (format_result result tr) = tr.
Proof.
  unfold format_result, bind, lift, ret.
  destruct (clean_markdown_text _); reflexivity.
Qed.

Lemma mapM_format_trace (items : list pyval) tr :
  snd (mapM format_result items tr) = tr.
Proof.
  revert tr. induction items as [|i items IH]; intros tr; [reflexivity|].
  cbn [mapM]. unfold bind at 1.
  pose proof (format_result_trace i tr) as F.
  destruct (format_result i tr) as [[e|b] tr1]; simpl in F; subst tr1;
    [reflexivity|].
  unfold bind. specialize (IH tr).
  destruct (mapM format_result items tr) as [[e|bs] tr2]; simpl in IH;
    subst tr2; reflexivity.
Qed.

Lemma collect_highlights_trace (results : list pyval) :
  forall acc tr, snd (collect_highlights results acc tr) = tr.
Proof.
  induction results as [|r results IH]; intros acc tr; [reflexivity|].
  cbn [collect_highlights]. unfold bind, lift.
  destruct (dict_get r "highlights") as [e|h]; [reflexivity|].
  destruct (truthy h); [|apply IH].
  destruct (dict_item r "highlights") as [e|hs]; [reflexivity|].
  destruct (iterate hs) as [e|more]; [reflexivity|]. apply IH.
Qed.

Section Shapes.

Variable W : world.

(** The dictionary [search] returns when all went well. *)
Definition found (query summary : str) (formatted : list pyval)
           (response : pyval) : pyval :=
  PyDict [("query", PyStr query); ("answer", PyStr summary);
          ("results", PyList formatted); ("raw_response", response)]%string.

(** The dictionary it returns after an exception. *)
Definition failed (query msg : str) : pyval :=
  PyDict [("error", PyStr msg); ("query", PyStr query);
          ("results", PyList [])]%string.

Lemma search_shapes (query : str) (max_results : Z) tr :
  exists d,
    search W query max_results tr
    = (inr d, tr ++ [SearchAndContents query max_results]) /\
    ((exists summary formatted response,
         search_and_contents W query max_results = inr response /\
         d = found query summary formatted response) \/
     (exists msg, d = failed query msg)).
Proof.
  unfold search, try_except.
  match goal with
  | |- context [bind ?m ?k tr] => set (body := bind m k)
  end.
  assert (T : snd (body tr) = tr ++ [SearchAndContents query max_results]).
  { unfold body, bind at 1, client_search_and_contents.
    destruct (search_and_contents W query max_results) as [e|response];
      [reflexivity|].
    unfold bind at 1.
    match goal with
    | |- context [match ?m ?t with _ => _ end] =>
        assert (R : snd (m t) = t) by
          (destruct response; try reflexivity;
           destruct (assoc "results" attrs); reflexivity);
        destruct (m t) as [[e|results] tr1]; simpl in R; subst tr1
    end; [reflexivity|].
    unfold bind at 1, lift.
    destruct (iterate results) as [e|items]; [reflexivity|].
    unfold bind at 1.
    pose proof (mapM_format_trace items
                 (tr ++ [SearchAndContents query max_results])) as F.
    destruct (mapM format_result items _) as [[e|formatted] tr2];
      simpl in F; subst tr2; [reflexivity|].
    unfold bind at 1.
    pose proof (collect_highlights_trace formatted []
                 (tr ++ [SearchAndContents query max_results])) as C.
    destruct (collect_highlights formatted [] _) as [[e|hl] tr3];
      simpl in C; subst tr3; [reflexivity|].
    unfold bind at 1.
    destruct hl as [|h hl]; [reflexivity|].
    unfold bind, lift, ret.
    destruct (strings_of _); reflexivity. }
  destruct (body tr) as [[e|d] tr1] eqn:E; simpl in T; subst tr1.
  - eexists. split; [reflexivity|]. right. eexists. reflexivity.
  - exists d. split; [reflexivity|]. left.
    unfold body in E.
    apply bind_inr in E. destruct E as (response & t1 & E1 & E).
    apply bind_inr in E. destruct E as (results & t2 & _ & E).
    apply bind_inr in E. destruct E as (items & t3 & _ & E).
    apply bind_inr in E. destruct E as (formatted & t4 & _ & E).
    apply bind_inr in E. destruct E as (hl & t5 & _ & E).
    apply bind_inr in E. destruct E as (summary & t6 & E6 & E).
    unfold ret in E. injection E as <- _.
    unfold client_search_and_contents in E1. injection E1 as E1 _.
    assert (exists sm, summary = PyStr sm) as [sm ->].
    { destruct hl as [|h hl].
      - unfold ret in E6. injection E6 as <- _. eauto.
      - apply bind_inr in E6. destruct E6 as (parts & t7 & _ & E6).
        unfold ret in E6. injection E6 as <- _. eauto. }
    exists sm, formatted, response. auto.
Qed.

Lemma search_failure (query : str) (max_results : Z) (e : exn) tr :
  search_and_contents W query max_results = inl e ->
  search W query max_results tr
  = (inr (failed query (str_of_exn W e)),
     tr ++ [SearchAndContents query max_results]).
Proof.
  intros H. unfold search, try_except, bind at 1, client_search_and_contents.
  rewrite H. reflexivity.
Qed.

(** The dictionary [get_answer] returns. *)
Definition answered (text : str) (urls : list pyval) (err : pyval) : pyval :=
  PyDict [("answer", PyStr text); ("citation_urls", PyList urls);
          ("error", err)]%string.

Lemma get_answer_shape (query : str) tr :
  exists text urls err,
    get_answer W query tr = (inr (answered text urls err), tr ++ [Answer query]).
Proof.
  unfold get_answer, try_except, bind at 1, client_answer.
  destruct (answer W query) as [e|response].
  - do 3 eexists. reflexivity.
  - destruct (getattr response "answer" (PyStr [])) as [| | |s| | |];
      try (do 3 eexists; reflexivity).
    unfold bind, ret, lift.
    destruct (iterate (getattr response "citations" (PyList [])));
      do 3 eexists; reflexivity.
Qed.

End Shapes.

End Wrappers.

(** A world to run the program in. *)
Definition demo_world : world :=
  {| search_and_contents := fun _ _ =>
       inr (PyObj [("results",
                    PyList [PyObj [("title", pystr "Docs");
                                   ("url", pystr "http://x.com/y");
                                   ("text", pystr "See [docs](http://x.com/y) now");
                                   ("highlights", PyList [pystr "See docs"])]])]%string);
     answer := fun _ =>
       inr (PyObj [("answer", pystr "Paris is the capital ([Source](http://a.com), [Other](http://b.com)).");
                   ("citations", PyList [PyObj [("url", pystr "http://a.com")];
                                         PyObj [("url", pystr "http://b.com")]])]%string);
     message_of := fun k =>
       match k with
       | TypeError => lit "TypeError"
       | ValueError => lit "ValueError"
       | AttributeError => lit "AttributeError"
       | KeyError => lit "KeyError"
       end;
     repr := fun _ => lit "<value>";
     title := fun s => s;
     DEFAULT_MAX_RESULTS := 5;
     calculate_exa_metrics := fun _ => PyDict [];
     calculate_traditional_metrics := fun _ => PyDict [];
     compare_metrics := fun _ _ => PyDict [] |}.

(** * The claims *)

(** A line feed between two pieces of text. *)
Definition nl (a b : str) : str := a ++ LF :: b.

(** ** C1 *)

(** C1. For the input
    "Paris is the capital ([Source](http://a.com), [Other](http://b.com))."
    the cleaning pipeline of [get_answer] gives exactly
    "Paris is the capital.": the citation group and both links are gone,
    the final period is kept, and no blank is left before it. *)
Theorem citation_group_example :
  clean_answer_str
    (lit "Paris is the capital ([Source](http://a.com), [Other](http://b.com)).")
  = lit "Paris is the capital.".
Proof. vm_compute. reflexivity. Qed.

(** ** C2 *)






(** ** C3 *)

(** A link inside the text of a link is only resolved by a second pass. *)
Lemma normalize_twice_differs :
  clean_markdown_text (PyStr (lit "[[a](b)](c)")) = inr (PyStr (lit "[a](c)")) /\
  clean_markdown_text (PyStr (lit "[a](c)")) = inr (PyStr (lit "a")).
Proof. vm_compute. split; reflexivity. Qed.

(** C3, amended.  When the normalized text [y] of an input has none of the
    characters that start markdown syntax (square bracket, asterisk,
    underscore, backtick, hash, pipe), normalizing it again gives [y]. *)
Theorem normalize_idempotent_on_clean (x y : str) :
  clean_markdown_text (PyStr x) = inr (PyStr y) ->
  (forall a, In a y -> Normalizer.markdown_char a = false) ->
  clean_markdown_text (PyStr y) = inr (PyStr y).
Proof.
  rewrite Normalizer.clean_markdown_text_str. intros [= <-] H.
  rewrite Normalizer.clean_markdown_text_str. do 2 f_equal.
  apply Normalizer.clean_markdown_str_fixed; auto.
  apply Normalizer.clean_markdown_str_tidy.
Qed.

Lemma normalize_idempotent_on_clean_witness :
  clean_markdown_text (PyStr (lit "# See **[docs](http://x.com/y)**   now"))
  = inr (PyStr (lit "See docs now")) /\
  (forall a, In a (lit "See docs now") -> Normalizer.markdown_char a = false) /\
  clean_markdown_text (PyStr (lit "See docs now"))
  = inr (PyStr (lit "See docs now")).
Proof.
  assert (H1 : clean_markdown_text
                 (PyStr (lit "# See **[docs](http://x.com/y)**   now"))
               = inr (PyStr (lit "See docs now")))
    by (vm_compute; reflexivity).
  assert (H2 : forall a, In a (lit "See docs now") ->
                         Normalizer.markdown_char a = false).
  { intros a Ha. vm_compute in Ha.
    repeat (destruct Ha as [<-|Ha]; [reflexivity|]). contradiction. }
  split; [exact H1|]. split; [exact H2|].
  exact (@normalize_idempotent_on_clean _ _ H1 H2).
Defined.

(** ** C6 *)

(** A row of dashes and pipes that does not start with a pipe is kept. *)
Lemma separator_without_outer_pipes_kept :
  forallb Table.separator_char (lit "---|---") = true /\
  table_stage (nl (lit "a|b") (nl (lit "---|---") (lit "1|2")))
  = nl (lit "a|b") (nl (lit "---|---") (lit "1|2")).
Proof. vm_compute. split; reflexivity. Qed.

(** C6, amended.  The table stage works line by line.  A line is dropped
    when, once trimmed, it starts with a pipe, ends with another pipe and
    has between them one or more blanks, dashes, colons or pipes.  Any other
    line whose first character after leading blanks is a pipe is split on
    pipes; the cells that are not blank are trimmed and joined with " - ",
    and the line is dropped when no such cell is left.  Every other line is
    kept as it is. *)
Theorem table_stage_by_rows (text : str) :
  table_stage text = join [LF] (flat_map Table.table_row (split LF text)).
Proof. unfold table_stage. now rewrite Table.clean_table_lines_rows. Qed.

(** ** C4 *)

(** The client answers [query] with [response]. *)
Definition answering (W : world) (response : exn + pyval) : world :=
  {| search_and_contents := search_and_contents W;
     answer := fun _ => response;
     message_of := message_of W;
     repr := repr W;
     title := title W;
     DEFAULT_MAX_RESULTS := DEFAULT_MAX_RESULTS W;
     calculate_exa_metrics := calculate_exa_metrics W;
     calculate_traditional_metrics := calculate_traditional_metrics W;
     compare_metrics := compare_metrics W |}.

(** C4. The normalizer returns a string for [None], for the empty string,
    which it maps to the empty string, and for every string.  [get_answer]
    always returns a dictionary whose answer is a string, whatever the
    client does: for a string answer it is the cleaned answer; an answer
    that is [None] makes [re.sub] raise inside the [try], and the answer
    returned is the empty string; nothing is raised to the caller. *)
Theorem cleaners_total :
  clean_markdown_text PyNone = inr (PyStr []) /\
  clean_markdown_text (PyStr []) = inr (PyStr []) /\
  (forall s, clean_markdown_text (PyStr s) = inr (PyStr (clean_markdown_str s))) /\
  (forall W query tr, exists text urls err,
      get_answer W query tr
      = (inr (Wrappers.answered text urls err), tr ++ [Answer query])) /\
  (forall W query tr s,
      get_answer (answering W (inr (PyObj [("answer", PyStr s)]%string))) query tr
      = (inr (Wrappers.answered (clean_answer_str s) [] PyNone),
         tr ++ [Answer query])) /\
  (forall W query tr,
      get_answer (answering W (inr (PyObj [("answer", PyNone)]%string))) query tr
      = (inr (Wrappers.answered [] [] (PyStr (message_of W TypeError))),
         tr ++ [Answer query])).
Proof.
  repeat split; try reflexivity.
  - apply Normalizer.clean_markdown_text_str.
  - apply Wrappers.get_answer_shape.
Qed.

(** ** C5 *)

(** C5. When the result of the search has an error and a list of results,
    the handler answers with status 500 and the body
    [{"error": "Exa API error: <message>"}] if the list is empty, without
    any further call; if the list is not empty it asks for the answer and
    returns the payload of the comparison with status 200. *)
Theorem fatal_or_partial_error
        (W : world) (query : str) (max_results : Z)
        (d : list (string * pyval)) (msg : str) (results : list pyval) tr :
  assoc "error" d = Some (PyStr msg) ->
  assoc "results" d = Some (PyList results) ->
  match results with
  | [] =>
      compare_results W query max_results (PyDict d) tr
      = (inr {| body := PyDict [("error"%string,
                                 PyStr (lit "Exa API error: " ++ msg))];
                status := 500 |}, tr)
  | _ :: _ =>
      exists exa_answer,
        get_answer W query tr = (inr exa_answer, tr ++ [Answer query]) /\
        compare_results W query max_results (PyDict d) tr
        = (inr {| body := comparison_payload W query max_results (PyDict d)
                                             exa_answer;
                  status := 200 |}, tr ++ [Answer query])
  end.
Proof.
  intros He Hr.
  unfold compare_results, bind, lift, ret, dict_has, dict_get, dict_item.
  rewrite He, Hr.
  destruct results as [|r results]; cbn [truthy negb]; cbv beta iota.
  - reflexivity.
  - destruct (Wrappers.get_answer_shape W query tr) as (text & urls & err & E).
    eexists. split; [exact E|]. rewrite E. reflexivity.
Qed.

Definition error_without_results : list (string * pyval) :=
  [("error", pystr "timeout"); ("query", pystr "rag"); ("results", PyList [])]%string.

Definition error_with_results : list (string * pyval) :=
  [("error", pystr "timeout"); ("query", pystr "rag");
   ("results", PyList [PyDict [("title", pystr "Docs")]])]%string.

Lemma fatal_or_partial_error_witness :
  (assoc "error" error_without_results = Some (PyStr (lit "timeout")) /\
   assoc "results" error_without_results = Some (PyList [])) /\
  compare_results demo_world (lit "rag") 3 (PyDict error_without_results) []
  = (inr {| body := PyDict [("error"%string,
                             PyStr (lit "Exa API error: " ++ lit "timeout"))];
            status := 500 |}, []).
Proof.
  split; [split; reflexivity|].
  exact (@fatal_or_partial_error demo_world (lit "rag") 3 error_without_results
           (lit "timeout") [] [] eq_refl eq_refl).
Defined.

(** The second case of C5, run. *)
Example partial_error_proceeds :
  exists payload,
    compare_results demo_world (lit "rag") 3 (PyDict error_with_results) []
    = (inr {| body := PyDict payload; status := 200 |}, [Answer (lit "rag")]) /\
    keys payload = ["query"; "exa"; "traditional"; "comparison"]%string.
Proof. eexists. split; [vm_compute; reflexivity|reflexivity]. Qed.

(** ** C7 *)






(** ** C8 *)

(** C8. [ExaSearchWrapper.search] calls the provider once and returns one of
    two dictionaries: with the keys query, answer, results, raw_response and
    no error, or, after an exception, with the keys error, query, results,
    the results being the empty list.  A failure of the client gives the
    second one.  So the result never has both an error and results that
    are not empty. *)
Theorem search_one_of_two_shapes (W : world) (query : str) (max_results : Z) tr :
  exists d,
    search W query max_results tr
    = (inr (PyDict d), tr ++ [SearchAndContents query max_results]) /\
    ((keys d = ["query"; "answer"; "results"; "raw_response"]%string /\
      assoc "error" d = None /\
      assoc "query" d = Some (PyStr query) /\
      (exists summary, assoc "answer" d = Some (PyStr summary)) /\
      (exists formatted, assoc "results" d = Some (PyList formatted)) /\
      (exists response,
          search_and_contents W query max_results = inr response /\
          assoc "raw_response" d = Some response))
     \/
     (keys d = ["error"; "query"; "results"]%string /\
      (exists msg, assoc "error" d = Some (PyStr msg)) /\
      assoc "query" d = Some (PyStr query) /\
      assoc "results" d = Some (PyList []))) /\
    (match search_and_contents W query max_results with
     | inl e => PyDict d = Wrappers.failed query (str_of_exn W e)
     | inr _ => True
     end) /\
    ~ (assoc "error" d <> None /\
       exists r, assoc "results" d = Some r /\ truthy r = true).
Proof.
  destruct (Wrappers.search_shapes W query max_results tr)
    as (v & E & [(summary & formatted & response & Hc & ->)|(msg & ->)]).
  - eexists. split; [exact E|]. split; [|split].
    + left. cbn. repeat split; eauto.
    + rewrite Hc. exact I.
    + cbn. intros [H _]. congruence.
  - eexists. split; [exact E|]. split; [|split].
    + right. cbn. repeat split; eauto.
    + destruct (search_and_contents W query max_results) as [e|] eqn:Hc; auto.
      rewrite (@Wrappers.search_failure W query max_results e tr Hc) in E.
      injection E as <-. reflexivity.
    + cbn. intros [_ (r & [= <-] & H)]. discriminate.
Qed.

(** ** C9 *)

(** With [max_results = -1] the slice drops the last template: nine
    results, and [min(-1, 10)] is not nine. *)
Lemma negative_count_gives_nine :
  List.length (_generate_mock_results demo_world (lit "rag") (-1)) = 9 /\
  assoc "total_results"
        (match traditional_search demo_world (lit "rag") (-1) with
         | PyDict d => d
         | _ => []
         end) = Some (PyInt 9) /\
  Z.min (-1) 10 = (-1)%Z.
Proof. vm_compute. repeat split; reflexivity. Qed.

(** A result of the traditional search: title, url and snippet, nothing
    else. *)
Definition snippet_result (r : pyval) : Prop :=
  exists t u sn,
    r = PyDict [("title", PyStr t); ("url", PyStr u); ("snippet", PyStr sn)]%string.

(** C9, amended.  For [max_results >= 0] the traditional search returns
    exactly [min(max_results, 10)] results, each with the fields title, url
    and snippet only, and [total_results] is their number.  The result is a
    function of the query and of [max_results]. *)
Theorem traditional_search_count (W : world) (query : str) (max_results : Z) :
  (0 <= max_results)%Z ->
  exists results,
    traditional_search W query max_results
    = PyDict [("query", PyStr query);
              ("results", PyList results);
              ("total_results", PyInt (Z.of_nat (List.length results)))]%string /\
    Z.of_nat (List.length results) = Z.min max_results 10 /\
    Forall snippet_result results.
Proof.
  intros Hn. unfold traditional_search.
  exists (_generate_mock_results W query max_results).
  split; [reflexivity|].
  unfold _generate_mock_results. cbv zeta.
  match goal with
  | |- context [slice_to max_results ?l] => set (templates := l)
  end.
  assert (L : List.length templates = 10) by reflexivity.
  assert (F : Forall snippet_result templates).
  { unfold templates, template_entry.
    repeat (constructor; [do 3 eexists; reflexivity|]). constructor. }
  unfold slice_to. apply Z.leb_le in Hn. rewrite Hn. apply Z.leb_le in Hn.
  split.
  - rewrite length_firstn, L. lia.
  - apply Forall_forall. intros r Hr. rewrite Forall_forall in F.
    apply F. eapply ReFacts.In_firstn; eauto.
Qed.

Lemma traditional_search_count_witness :
  (0 <= 3)%Z /\
  exists results,
    traditional_search demo_world (lit "rag pipelines") 3
    = PyDict [("query", PyStr (lit "rag pipelines"));
              ("results", PyList results);
              ("total_results", PyInt (Z.of_nat (List.length results)))]%string /\
    Z.of_nat (List.length results) = Z.min 3 10 /\
    Forall snippet_result results.
Proof.
  assert (H : (0 <= 3)%Z) by lia.
  split; [exact H|].
  exact (@traditional_search_count demo_world (lit "rag pipelines") 3 H).
Defined.

(** ** C10 *)



(** * Further properties *)

(** ** Matching at a known place *)

Module Walk.

Import ReFacts.

Lemma exec_lit (x : ascii) (p : pattern) ma prev (s : str) (pos : nat) :
  exec (L x :: p) ma prev (x :: s) pos = exec p ma (Some x) s (pos + 1).
Proof.
  unfold L, One. cbn [exec]. unfold run, chr. cbn [span].
  rewrite Ascii.eqb_refl. cbn [Nat.min try_down Nat.ltb Nat.leb prev_at
                                       nth_error skipn].
  destruct (exec p ma (Some x) s (pos + 1)); reflexivity.
Qed.

Lemma exec_lit_mismatch (x : ascii) (p : pattern) ma prev (s : str) (pos : nat) :
  hd_error s <> Some x -> exec (L x :: p) ma prev s pos = None.
Proof.
  intros H. unfold L, One. cbn [exec].
  assert (E : run (chr x) (Some 1) s = 0).
  { unfold run. destruct s as [|a s]; [reflexivity|]. cbn [span].
    destruct (chr x a) eqn:C; [|reflexivity].
    apply chr_true in C. subst. simpl in H. congruence. }
  rewrite E. reflexivity.
Qed.

(** A run that stops at the end of [t]. *)
Definition stops (c : charclass) (z : str) : Prop :=
  match z with
  | [] => True
  | a :: _ => c a = false
  end.

Lemma span_exact (c : charclass) (t z : str) :
  forallb c t = true -> stops c z -> span c (t ++ z) = List.length t.
Proof.
  intros Ht Hz. induction t as [|a t IH]; simpl in *.
  - destruct z; simpl in *; [reflexivity|now rewrite Hz].
  - apply andb_true_iff in Ht. destruct Ht as [-> Ht]. now rewrite IH.
Qed.

Lemma prev_at_app (prev : option ascii) (t z : str) :
  prev_at prev (t ++ z) (List.length t) = prev_at prev t (List.length t).
Proof.
  destruct t as [|a t]; [reflexivity|]. cbn [List.length prev_at].
  apply nth_error_app1. simpl. lia.
Qed.

(** The greedy repetition takes all of [t] when what follows matches. *)
Lemma exec_rep_all (c : charclass) (lo : nat) (p : pattern) ma prev
      (t z : str) (pos : nat) (r : capture) :
  forallb c t = true -> stops c z -> lo <= List.length t ->
  exec p ma (prev_at prev t (List.length t)) z (pos + List.length t) = Some r ->
  exec (Rep c lo None :: p) ma prev (t ++ z) pos = Some r.
Proof.
  intros Ht Hz Hlo Hr. cbn [exec run]. rewrite span_exact by assumption.
  apply try_down_first; [assumption|].
  now rewrite Accept.skipn_app_length, prev_at_app.
Qed.

(** Patterns that do not look at what comes before the match. *)
Definition looks_back (i : item) : bool :=
  match i with
  | Bol | Bos | NotWordBefore => true
  | _ => false
  end.

Definition anchor_free (p : pattern) : Prop :=
  forallb (fun i => negb (looks_back i)) p = true.

Lemma try_down_ext (f g : nat -> option capture) (lo k : nat) :
  (forall j, f j = g j) -> try_down f lo k = try_down g lo k.
Proof.
  intros H. induction k as [|k IH]; simpl; rewrite H.
  - reflexivity.
  - now rewrite IH.
Qed.

Lemma exec_prev (p : pattern) :
  anchor_free p ->
  forall ma prev prev' s pos, exec p ma prev s pos = exec p ma prev' s pos.
Proof.
  unfold anchor_free.
  induction p as [|i p IH]; intros H ma prev prev' s pos; [reflexivity|].
  cbn [forallb] in H. apply andb_true_iff in H. destruct H as [Hi Hp].
  specialize (IH Hp).
  destruct i; try discriminate; cbn [exec].
  - apply try_down_ext. intros j. apply IH.
  - destruct (at_end s); auto.
  - destruct (word_opt (hd_error s)); auto.
  - now rewrite (IH ma prev prev').
  - now rewrite (IH ma prev prev').
Qed.

Lemma sub_walk_prev (p : pattern) (t : template) :
  anchor_free p ->
  forall s prev prev' skip,
    sub_walk p t prev s skip = sub_walk p t prev' s skip.
Proof.
  intros Hp. induction s as [|a s IH]; intros prev prev' skip.
  - cbn [sub_walk]. now rewrite (exec_prev Hp false prev prev').
  - cbn [sub_walk]. destruct skip; [|apply IH].
    rewrite (exec_prev Hp false prev prev'), (exec_prev Hp true prev prev').
    reflexivity.
Qed.

(** The characters of a match are passed over. *)
Lemma sub_walk_skip (p : pattern) (t : template) :
  anchor_free p ->
  forall x prev rest,
    sub_walk p t prev (x ++ rest) (List.length x) = sub p t rest.
Proof.
  intros Hp. induction x as [|a x IH]; intros prev rest.
  - apply (sub_walk_prev _ Hp).
  - cbn [app List.length sub_walk]. apply IH.
Qed.

(** A match at the start of the text is replaced, and the scan goes on
    after it. *)
Lemma sub_match_here (p : pattern) (t : template) (m rest : str) (r : capture) :
  anchor_free p -> m <> [] ->
  exec p false None (m ++ rest) 0 = Some r -> m_end r = List.length m ->
  sub p t (m ++ rest) = expand t (m ++ rest) r ++ sub p t rest.
Proof.
  intros Hp Hm He Hl. destruct m as [|a m]; [congruence|].
  unfold sub at 1. cbn [app sub_walk]. cbn [app] in He. rewrite He, Hl.
  cbn [List.length]. f_equal. apply (sub_walk_skip _ Hp).
Qed.

(** Where no match starts, the text is copied. *)
Lemma sub_no_match_prefix (p : pattern) (t : template) (rest : str) :
  anchor_free p ->
  forall pre,
    (forall x y, pre = x ++ y -> y <> [] ->
                 exec p false None (y ++ rest) 0 = None) ->
    sub p t (pre ++ rest) = pre ++ sub p t rest.
Proof.
  intros Hp. induction pre as [|a pre IH]; intros H; [reflexivity|].
  unfold sub at 1. cbn [app sub_walk].
  assert (E : exec p false None ((a :: pre) ++ rest) 0 = None)
    by (apply (H [] (a :: pre)); [reflexivity|discriminate]).
  cbn [app] in E. rewrite E.
  rewrite (sub_walk_prev _ Hp _ (Some a) None). fold (sub p t (pre ++ rest)).
  rewrite IH; [reflexivity|].
  intros x y Exy Hy. apply (H (a :: x) y); auto. simpl. now f_equal.
Qed.

(** The end of a link: the closing bracket, then the target in parentheses. *)
Definition TARGET : pattern :=
  [L "]"; L "("; Plus (neg (chr ")")); L ")"].

Lemma not_in_forallb_neg (x : ascii) (s : str) :
  ~ In x s -> forallb (neg (chr x)) s = true.
Proof.
  intros H. apply forallb_forall. intros a Ha. unfold neg.
  destruct (chr x a) eqn:C; auto. apply chr_true in C. subst. contradiction.
Qed.

Lemma exec_target prev (u post : str) (pos : nat) :
  u <> [] -> ~ In ")"%char u ->
  exec TARGET false prev ("]"%char :: "("%char :: u ++ ")"%char :: post) pos
  = Some {| m_end := pos + 1 + 1 + List.length u + 1;
            g_start := None; g_end := None |}.
Proof.
  intros Hu Hn. unfold TARGET. rewrite !exec_lit.
  apply exec_rep_all.
  - now apply not_in_forallb_neg.
  - simpl. unfold neg, chr. now rewrite Ascii.eqb_refl.
  - destruct u; [congruence|simpl; lia].
  - rewrite exec_lit. reflexivity.
Qed.

End Walk.

(** ** Links and images in plain text *)

Module Links.

Import ReFacts StrFacts Walk Normalizer.

(** A text without the characters that start markdown syntax. *)
Definition plain (s : str) : Prop :=
  forall a, In a s -> markdown_char a = false.

Lemma plain_app (s1 s2 : str) : plain s1 -> plain s2 -> plain (s1 ++ s2).
Proof.
  intros H1 H2 a Ha. apply in_app_or in Ha. destruct Ha; auto.
Qed.

Lemma plain_absent (x : ascii) (s : str) :
  plain s -> markdown_char x = true -> ~ In x s.
Proof. intros H Hx. now apply not_markdown. Qed.

Lemma exec_gopen (p : pattern) ma prev (s : str) (pos : nat) (r : capture) :
  exec p ma prev s pos = Some r ->
  exec (GOpen :: p) ma prev s pos
  = Some {| m_end := m_end r; g_start := Some pos; g_end := g_end r |}.
Proof. intros H. cbn [exec]. now rewrite H. Qed.

Lemma exec_gclose (p : pattern) ma prev (s : str) (pos : nat) (r : capture) :
  exec p ma prev s pos = Some r ->
  exec (GClose :: p) ma prev s pos
  = Some {| m_end := m_end r; g_start := g_start r; g_end := Some pos |}.
Proof. intros H. cbn [exec]. now rewrite H. Qed.




Lemma group1_at (b n : nat) (x t y : str) (e : nat) :
  List.length x = b -> List.length t = n ->
  group1 (x ++ t ++ y) {| m_end := e; g_start := Some b; g_end := Some (b + n) |}
  = t.
Proof.
  intros <- <-. unfold group1. cbn [g_start g_end].
  rewrite Accept.skipn_app_length.
  replace (List.length x + List.length t - List.length x)
    with (List.length t + 0) by lia.
  rewrite firstn_app_2. simpl. apply app_nil_r.
Qed.




(** The place of a character that occurs once. *)
Lemma unique_split (a : ascii) (X Y A B : str) :
  ~ In a A -> ~ In a B -> X ++ a :: Y = A ++ a :: B -> X = A.
Proof.
  intros HA HB. revert A HA. induction X as [|x X IH]; intros [|c A] HA E.
  - reflexivity.
  - simpl in E. injection E as -> _. exfalso. apply HA. now left.
  - simpl in E. injection E as -> E. exfalso. apply HB. rewrite <- E.
    apply in_or_app. right. now left.
  - simpl in E. injection E as -> E. f_equal. apply IH; auto.
    intros H. apply HA. now right.
Qed.





End Links.

(** ** Runs of characters, said without the scan *)

Module Runs.

Import ReFacts StrFacts Collapse Tidy Walk.

(** [n] or more characters of the class [c] in a row. *)
Definition has_run (c : charclass) (n : nat) (s : str) : Prop :=
  exists pre run post,
    s = pre ++ run ++ post /\ forallb c run = true /\ n <= List.length run.

Lemma no_run_bound (c : charclass) (n : nat) :
  0 < n ->
  forall pre s run post,
    no_run c n s = true -> s = pre ++ run ++ post ->
    forallb c run = true -> List.length run < n.
Proof.
  intros Hn. induction pre as [|b pre IH]; intros s run post Hs E Hr.
  - simpl in E. subst s. destruct run as [|a run]; [simpl; lia|].
    change ((a :: run) ++ post) with (a :: (run ++ post)) in Hs.
    cbn [no_run] in Hs. apply andb_true_iff in Hs. destruct Hs as [Hs _].
    apply Nat.ltb_lt in Hs.
    pose proof (Accept.span_app_all c (a :: run) post Hr) as B.
    simpl in *. lia.
  - subst s. change ((b :: pre) ++ run ++ post)
      with (b :: (pre ++ run ++ post)) in Hs.
    cbn [no_run] in Hs. apply andb_true_iff in Hs. destruct Hs as [_ Hs].
    eapply IH; eauto.
Qed.

Lemma no_run_not_has_run (c : charclass) (n : nat) (s : str) :
  0 < n -> no_run c n s = true -> ~ has_run c n s.
Proof.
  intros Hn Hs (pre & run & post & E & Hr & Hl).
  pose proof (no_run_bound c Hn pre run post Hs E Hr). lia.
Qed.

Lemma not_has_run_no_run (c : charclass) (n : nat) (s : str) :
  ~ has_run c n s -> no_run c n s = true.
Proof.
  induction s as [|a s IH]; intros H; [reflexivity|].
  cbn [no_run]. apply andb_true_iff. split.
  - apply Nat.ltb_lt.
    destruct (Nat.lt_ge_cases (span c (a :: s)) n) as [|G]; auto.
    exfalso. apply H.
    destruct (@Accept.span_firstn c (a :: s) (span c (a :: s)) (le_n _))
      as [F L].
    exists [], (firstn (span c (a :: s)) (a :: s)),
      (skipn (span c (a :: s)) (a :: s)).
    repeat split; auto.
    + simpl app. symmetry. apply firstn_skipn.
    + rewrite L. exact G.
  - apply IH. intros (pre & run & post & E & Hr & Hl).
    apply H. exists (a :: pre), run, post. subst s. auto.
Qed.

Lemma no_run_weaken (c d : charclass) (n : nat) (s : str) :
  (forall a, d a = true -> c a = true) ->
  no_run c n s = true -> no_run d n s = true.
Proof.
  intros Hd. induction s as [|a s IH]; [reflexivity|].
  cbn [no_run]. rewrite !andb_true_iff, !Nat.ltb_lt. intros [H1 H2].
  split; auto.
  assert (forall y, span d y <= span c y) as B.
  { induction y as [|b y IHy]; simpl; [lia|].
    destruct (d b) eqn:Db; [|lia]. rewrite (Hd b Db). lia. }
  specialize (B (a :: s)). lia.
Qed.

(** The tidy texts of the normalizer, said with runs. *)
Definition tidy_text (y : str) : Prop :=
  ~ has_run newline 3 y /\ ~ has_run blank 2 y /\ ~ In TAB y /\ trimmed y.

Lemma blank_cases (a : ascii) :
  blank a = true -> a = " "%char \/ a = TAB.
Proof.
  unfold blank, union. intros H. apply orb_true_iff in H.
  destruct H as [H|H]; apply chr_true in H; auto.
Qed.

Lemma tidy_tidy_text (y : str) : tidy y <-> tidy_text y.
Proof.
  unfold tidy, tidy_text. split.
  - intros (H1 & H2 & H3 & H4). split; [|split; [|split]]; auto.
    + apply no_run_not_has_run; auto; lia.
    + apply no_run_not_has_run; auto; lia.
    + intros H. specialize (H3 TAB H eq_refl). discriminate.
  - intros (H1 & H2 & H3 & H4). split; [|split; [|split]]; auto.
    + now apply not_has_run_no_run.
    + now apply not_has_run_no_run.
    + intros a Ha Hb. destruct (blank_cases a Hb) as [Hc|Hc]; auto.
      subst a. contradiction.
Qed.

(** A blank directly before one of [. , ! ?]. *)
Definition space_before_punct (s : str) : Prop :=
  exists x w q y,
    s = x ++ w :: q :: y /\ is_space w = true /\ oneof ".,!?" q = true.

Lemma space_punct_anchor_free : anchor_free Pat.SPACE_PUNCT.
Proof. reflexivity. Qed.

Lemma exec_space_punct (s : str) :
  ~ space_before_punct s ->
  forall x y, s = x ++ y -> exec Pat.SPACE_PUNCT false None y 0 = None.
Proof.
  intros H x y E.
  destruct (exec Pat.SPACE_PUNCT false None y 0) as [r|] eqn:X; auto.
  exfalso. apply H.
  assert (A : Accept.accepts Pat.SPACE_PUNCT None y)
    by (apply (Accept.exec_accepts _ None y 0); eauto).
  unfold Pat.SPACE_PUNCT, Plus, One, Pat.ws in A. cbn [Accept.accepts] in A.
  destruct A as (k & [Hk1 Hk2] & k2 & [Hk3 Hk4] & _).
  cbn [run] in Hk2.
  destruct (@Accept.span_firstn is_space y k Hk2) as [F L].
  destruct (skipn k y) as [|q z] eqn:Sk; [simpl in Hk4; lia|].
  assert (Hq : oneof ".,!?" q = true).
  { unfold run in Hk4. cbn [span] in Hk4.
    destruct (oneof ".,!?" q); auto. simpl in Hk4. lia. }
  destruct (firstn k y) as [|b f] eqn:Fk; [simpl in L; lia|].
  destruct (@exists_last _ (b :: f)) as (f' & w & Ef); [discriminate|].
  exists (x ++ f'), w, q, z. repeat split; auto.
  - rewrite E, <- (firstn_skipn k y), Fk, Sk, Ef.
    rewrite <- !app_assoc. reflexivity.
  - rewrite Ef in F. rewrite forallb_app in F.
    apply andb_true_iff in F. destruct F as [_ F]. simpl in F.
    now rewrite andb_true_r in F.
Qed.

Lemma sub_space_punct_fixed (s : str) :
  ~ space_before_punct s -> sub Pat.SPACE_PUNCT Pat.G1 s = s.
Proof.
  intros H. rewrite <- (app_nil_r s) at 1.
  rewrite (sub_no_match_prefix _ _ space_punct_anchor_free).
  - unfold sub. cbn [sub_walk].
    rewrite (exec_space_punct H s []) by (now rewrite app_nil_r).
    apply app_nil_r.
  - intros x y E _. rewrite app_nil_r. now apply (exec_space_punct H x y).
Qed.

End Runs.

(** ** The answer cleaner on plain text *)

Module Cleaner.

Import ReFacts StrFacts Collapse Walk Runs.

Ltac needs_one :=
  exists 1, (Some 1); split; [lia|];
  cbv [Pat.CITATION_GROUP Pat.CITATION Pat.COMMA_PAREN Pat.EMPTY_PARENS
       Pat.SPACE_PAREN Pat.PUNCT_PAREN Pat.PAREN_PUNCT L One];
  simpl; tauto.

Lemma citation_group_needs : requires "(" Pat.CITATION_GROUP.
Proof. needs_one. Qed.

Lemma citation_needs : requires "[" Pat.CITATION.
Proof. needs_one. Qed.

Lemma comma_paren_needs : requires ")" Pat.COMMA_PAREN.
Proof. needs_one. Qed.

Lemma empty_parens_needs : requires "(" Pat.EMPTY_PARENS.
Proof. needs_one. Qed.

Lemma space_paren_needs : requires ")" Pat.SPACE_PAREN.
Proof. needs_one. Qed.

Lemma punct_paren_needs : requires ")" Pat.PUNCT_PAREN.
Proof. needs_one. Qed.

Lemma paren_punct_needs : requires ")" Pat.PAREN_PUNCT.
Proof. needs_one. Qed.

(** The characters the cleaner looks for, blanks and punctuation apart. *)
Definition answer_char : charclass := oneof "()[*#`".

Definition plain_answer (s : str) : Prop :=
  forall a, In a s -> answer_char a = false.

Lemma plain_answer_absent (x : ascii) (s : str) :
  plain_answer s -> answer_char x = true -> ~ In x s.
Proof. intros H Hx Hin. rewrite (H x Hin) in Hx. discriminate. Qed.

Lemma plain_answer_app (s1 s2 : str) :
  plain_answer s1 -> plain_answer s2 -> plain_answer (s1 ++ s2).
Proof. intros H1 H2 a Ha. apply in_app_or in Ha. destruct Ha; auto. Qed.

Lemma repair_punctuation_absent (s : str) :
  ~ In "("%char s -> ~ In ")"%char s -> repair_punctuation s = s.
Proof.
  intros H1 H2. unfold repair_punctuation.
  rewrite (@sub_absent _ _ _ _ comma_paren_needs) by assumption.
  rewrite (@sub_absent _ _ _ _ empty_parens_needs) by assumption.
  rewrite (@sub_absent _ _ _ _ space_paren_needs) by assumption.
  rewrite (@sub_absent _ _ _ _ punct_paren_needs) by assumption.
  now rewrite (@sub_absent _ _ _ _ paren_punct_needs) by assumption.
Qed.

(** After line 185 no two blanks stand side by side: line 186 finds
    nothing to replace. *)
Lemma final_cleanup_spacing (s : str) :
  final_cleanup s
  = strip (sub Pat.SPACES2 (Pat.T " ") (sub Pat.SPACE_PUNCT Pat.G1 s)) /\
  no_run is_space 2 (final_cleanup s) = true.
Proof.
  unfold final_cleanup.
  set (v := sub Pat.SPACES2 (Pat.T " ") (sub Pat.SPACE_PUNCT Pat.G1 s)).
  assert (Hv : no_run is_space 2 v = true).
  { apply (@no_run_walk is_space 2 [" "%char]); simpl; lia. }
  assert (Hl : no_run (chr LF) 2 v = true).
  { apply (@no_run_weaken is_space); auto.
    intros a Ha. apply chr_true in Ha. subst. reflexivity. }
  assert (E : sub Pat.NEWLINES2 [TLit [LF; LF]] v = v).
  { apply (@walk_fixed_short (chr LF) 2 [LF; LF]); auto. }
  rewrite E. split; [reflexivity|].
  destruct (strip_decomp v) as (pre & post & D & _ & _).
  rewrite D in Hv. apply no_run_app in Hv. destruct Hv as [_ Hv].
  now apply no_run_app in Hv.
Qed.

Lemma final_cleanup_fixed (s : str) :
  ~ space_before_punct s -> ~ has_run is_space 2 s -> trimmed s ->
  final_cleanup s = s.
Proof.
  intros H1 H2 H3. destruct (final_cleanup_spacing s) as [-> _].
  rewrite sub_space_punct_fixed by assumption.
  assert (E : sub Pat.SPACES2 (Pat.T " ") s = s).
  { apply (@walk_fixed_short is_space 2 [" "%char]); [lia|].
    now apply not_has_run_no_run. }
  rewrite E. now apply strip_fixed.
Qed.

Lemma remove_citations_absent (s : str) :
  ~ In "("%char s -> ~ In "["%char s -> remove_citations s = s.
Proof.
  intros H1 H2. unfold remove_citations.
  rewrite (@sub_absent _ _ _ _ citation_group_needs) by assumption.
  now rewrite (@sub_absent _ _ _ _ citation_needs) by assumption.
Qed.

(** The cleaner without the last stage, on a text it has nothing to do
    with. *)
Lemma before_cleanup_plain (s : str) :
  plain_answer s ->
  strip_answer_markers (repair_punctuation (remove_citations s)) = s.
Proof.
  intros H.
  rewrite remove_citations_absent by (now apply plain_answer_absent).
  rewrite repair_punctuation_absent by (now apply plain_answer_absent).
  now apply AnswerMarkers.strip_answer_markers_absent;
    apply plain_answer_absent.
Qed.

(** *** Citations *)

Lemma unique_split2 (a : ascii) (X Y A B : str) :
  ~ In a A -> ~ In a B -> X ++ a :: Y = A ++ a :: B -> X = A /\ Y = B.
Proof.
  intros HA HB E. pose proof (@Links.unique_split a X Y A B HA HB E) as EX.
  subst X. apply app_inv_head in E. injection E as E. auto.
Qed.

(** [a] comes before the first [b]. *)
Lemma before_first (a b : ascii) (A Y B Z : str) :
  A ++ a :: Y = B ++ b :: Z -> ~ In b A -> a <> b -> In a B.
Proof.
  revert B. induction A as [|x A IH]; intros [|c B] E Hb Hab; simpl in E.
  - injection E as E _. contradiction.
  - injection E as -> _. now left.
  - injection E as -> _. exfalso. apply Hb. now left.
  - injection E as -> E. right. apply (IH B); auto.
    intros H. apply Hb. now right.
Qed.

Lemma span_lt (c : charclass) (y rest : str) (a : ascii) :
  In a y -> c a = false -> span c (y ++ rest) < List.length y.
Proof.
  induction y as [|b y IH]; intros Ha Ca; [contradiction|].
  simpl. destruct (c b) eqn:Cb; [|lia].
  destruct Ha as [->|Ha]; [congruence|]. specialize (IH Ha Ca). lia.
Qed.

Lemma span_until (c : charclass) (A R : str) (b : ascii) :
  c b = false -> span c (A ++ b :: R) <= List.length A.
Proof.
  intros Cb. induction A as [|a A IH]; simpl.
  - now rewrite Cb.
  - destruct (c a); lia.
Qed.

Lemma hd_skipn_in (k : nat) (y rest : str) (a : ascii) :
  k < List.length y -> hd_error (skipn k (y ++ rest)) = Some a -> In a y.
Proof.
  revert y. induction k as [|k IH]; intros [|b y] Hk H; simpl in *; try lia.
  - injection H as ->. now left.
  - right. apply IH; auto. lia.
Qed.

Lemma last_not_space (pre x y : str) :
  (forall z a, pre = z ++ [a] -> is_space a = false) ->
  pre = x ++ y -> y <> [] -> exists a, In a y /\ is_space a = false.
Proof.
  intros H E Hy. destruct (exists_last Hy) as (y' & a & Ey).
  exists a. split.
  - rewrite Ey. apply in_or_app. right. now left.
  - apply (H (x ++ y')). rewrite E, Ey. now rewrite app_assoc.
Qed.

(** A pattern that starts with blanks and a given character finds nothing
    inside a text without that character that does not end with a blank. *)
Lemma exec_blanks_then (x : ascii) (q : pattern) (y rest : str) (a : ascii) :
  ~ In x y -> In a y -> is_space a = false ->
  exec (Star Pat.ws :: L x :: q) false None (y ++ rest) 0 = None.
Proof.
  intros Hx Ha Sa.
  destruct (exec _ false None (y ++ rest) 0) as [r|] eqn:X; auto.
  exfalso.
  assert (A : Accept.accepts (Star Pat.ws :: L x :: q) None (y ++ rest))
    by (apply (Accept.exec_accepts _ None _ 0); eauto).
  unfold Star, L, One, Pat.ws in A. cbn [Accept.accepts] in A.
  destruct A as (k1 & [_ Hk1] & k2 & Hk2 & _).
  cbn [run] in Hk1. apply Accept.one_char in Hk2.
  destruct Hk2 as [_ [s' E]].
  pose proof (span_lt is_space y rest a Ha Sa) as B.
  apply Hx. apply (@hd_skipn_in k1 y rest); [lia|]. now rewrite E.
Qed.

Lemma citation_anchor_free : anchor_free Pat.CITATION.
Proof. reflexivity. Qed.

Lemma citation_group_anchor_free : anchor_free Pat.CITATION_GROUP.
Proof. reflexivity. Qed.

Lemma exec_citation (ws t u post : str) :
  forallb is_space ws = true -> ~ In "]"%char t ->
  u <> [] -> ~ In ")"%char u ->
  exec Pat.CITATION false None
       (ws ++ "["%char :: t ++ "]"%char :: "("%char :: u ++ ")"%char :: post) 0
  = Some {| m_end := 0 + List.length ws + 1 + List.length t + 1 + 1
                     + List.length u + 1;
            g_start := None; g_end := None |}.
Proof.
  intros Hws Ht Hu1 Hu2. unfold Pat.CITATION, Star.
  apply exec_rep_all; auto; [reflexivity|lia|].
  rewrite exec_lit.
  apply exec_rep_all; [now apply not_in_forallb_neg| |lia|].
  - simpl. unfold neg, chr. now rewrite Ascii.eqb_refl.
  - now apply exec_target.
Qed.

(** Lines 169-170 on a citation that follows plain text. *)
Lemma remove_citation (pre ws t u post : str) :
  plain_answer pre -> plain_answer post ->
  (forall z a, pre = z ++ [a] -> is_space a = false) ->
  forallb is_space ws = true ->
  ~ In "]"%char t -> ~ In "("%char t ->
  u <> [] -> ~ In "("%char u -> ~ In ")"%char u -> ~ In "["%char u ->
  remove_citations
    (pre ++ ws ++ "["%char :: t ++ "]"%char :: "("%char :: u ++ ")"%char :: post)
  = pre ++ post.
Proof.
  intros Hpre Hpost Hend Hws Ht1 Ht2 Hu0 Hu1 Hu2 Hu3.
  unfold remove_citations.
  set (S := pre ++ ws ++ "["%char :: t ++ "]"%char :: "("%char :: u
                ++ ")"%char :: post).
  assert (Sp : forall a, In a ws -> a <> "("%char).
  { intros a Ha ->. rewrite forallb_forall in Hws.
    specialize (Hws _ Ha). discriminate. }
  assert (E1 : sub Pat.CITATION_GROUP Pat.Drop S = S).
  { rewrite <- (app_nil_r S) at 1.
    assert (N : forall x y, S = x ++ y ->
                            exec Pat.CITATION_GROUP false None y 0 = None).
    { intros x y E.
      destruct (exec Pat.CITATION_GROUP false None y 0) as [r|] eqn:X; auto.
      exfalso.
      assert (A : Accept.accepts Pat.CITATION_GROUP None y)
        by (apply (Accept.exec_accepts _ None y 0); eauto).
      unfold Pat.CITATION_GROUP, Star, L, One in A. cbn [Accept.accepts] in A.
      destruct A as (k1 & _ & k2 & Hk2 & k3 & [_ Hk3] & k4 & Hk4 & _).
      apply Accept.one_char in Hk2. destruct Hk2 as [-> [z Ez]].
      change (skipn 1 (skipn k1 y)) with (tl (skipn k1 y)) in *.
      rewrite Ez in *. cbn [tl] in *.
      apply Accept.one_char in Hk4. destruct Hk4 as [_ [z' Ez']].
      cbn [run] in Hk3.
      destruct (@Accept.span_firstn _ z k3 Hk3) as [F _].
      assert (Ey : y = firstn k1 y ++ "("%char :: z)
        by (now rewrite <- Ez, firstn_skipn).
      assert (ES : (x ++ firstn k1 y) ++ "("%char :: z
                   = (pre ++ ws ++ "["%char :: t ++ ["]"%char])
                       ++ "("%char :: (u ++ ")"%char :: post)).
      { rewrite <- app_assoc, <- Ey, <- E. unfold S.
        rewrite <- !app_assoc. simpl. rewrite <- !app_assoc. reflexivity. }
      apply unique_split2 in ES.
      - destruct ES as [_ Ez2].
        assert (Ez3 : firstn k3 z ++ "["%char :: z' = u ++ ")"%char :: post)
          by (now rewrite <- Ez', firstn_skipn).
        apply before_first in Ez3; auto; [|discriminate].
        intros H. rewrite forallb_forall in F. specialize (F _ H).
        discriminate.
      - intros H. apply in_app_or in H. destruct H as [H|H];
          [exact (plain_answer_absent "("%char Hpre eq_refl H)|].
        apply in_app_or in H. destruct H as [H|H]; [now apply (Sp _ H)|].
        destruct H as [H|H]; [discriminate|].
        apply in_app_or in H. destruct H as [H|[H|[]]]; auto. discriminate.
      - intros H. apply in_app_or in H. destruct H as [H|[H|H]]; auto;
          [discriminate|]. exact (plain_answer_absent "("%char Hpost eq_refl H). }
    rewrite (sub_no_match_prefix _ _ citation_group_anchor_free).
    - unfold sub. cbn [sub_walk]. rewrite (N S []) by (now rewrite app_nil_r).
      apply app_nil_r.
    - intros x y E _. rewrite app_nil_r. now apply (N x y). }
  rewrite E1. unfold S.
  rewrite (sub_no_match_prefix _ _ citation_anchor_free).
  - f_equal.
    set (m := ws ++ "["%char :: t ++ "]"%char :: "("%char :: u ++ [")"%char]).
    assert (Em : ws ++ "["%char :: t ++ "]"%char :: "("%char :: u
                    ++ ")"%char :: post = m ++ post).
    { unfold m. rewrite <- !app_assoc. simpl. rewrite <- !app_assoc.
      simpl. rewrite <- !app_assoc. reflexivity. }
    pose proof (@exec_citation ws t u post Hws Ht1 Hu0 Hu2) as Ex.
    rewrite Em in *.
    assert (Hm : m <> []) by (unfold m; destruct ws; discriminate).
    rewrite (@sub_match_here _ Pat.Drop m post _ citation_anchor_free Hm Ex).
    + simpl.
      apply (@sub_absent _ _ _ _ citation_needs).
      exact (plain_answer_absent "["%char Hpost eq_refl).
    + cbn [m_end]. unfold m. rewrite !length_app. cbn [List.length].
      rewrite length_app. cbn [List.length]. rewrite length_app. simpl. lia.
  - intros x y E Hy. unfold Pat.CITATION.
    destruct (@last_not_space pre x y Hend E Hy) as (a & Ha & Sa).
    apply (@exec_blanks_then "["%char _ y _ a); auto.
    intros H. apply (plain_answer_absent "["%char Hpre eq_refl).
    rewrite E. apply in_or_app. now right.
Qed.

Lemma try_down_only (f : nat -> option capture) (k : nat) (r : capture) :
  (forall j, 1 <= j <= k -> f j = None) -> f 0 = Some r ->
  try_down f 0 k = Some r.
Proof.
  intros H H0. induction k as [|k IH]; simpl.
  - now rewrite H0.
  - rewrite (H (Datatypes.S k)) by lia. apply IH. intros j Hj. apply H. lia.
Qed.

(** A repetition that has to give everything back. *)
Lemma exec_rep_nothing (c : charclass) (x : ascii) (q : pattern) ma prev
      (s : str) (pos : nat) (r : capture) :
  (forall j, 1 <= j <= span c s -> hd_error (skipn j s) <> Some x) ->
  exec (L x :: q) ma prev s (pos + 0) = Some r ->
  exec (Rep c 0 None :: L x :: q) ma prev s pos = Some r.
Proof.
  intros H H0. cbn [exec run]. apply try_down_only; [|exact H0].
  intros j Hj. apply exec_lit_mismatch. now apply H.
Qed.

Lemma exec_citation_group (ws t u post : str) :
  forallb is_space ws = true -> ~ In "]"%char t -> ~ In "["%char t ->
  u <> [] -> ~ In ")"%char u ->
  exists r,
    exec Pat.CITATION_GROUP false None
         (ws ++ "("%char :: "["%char :: t ++ "]"%char :: "("%char :: u
             ++ ")"%char :: ")"%char :: post) 0 = Some r /\
    m_end r = List.length ws + List.length t + List.length u + 6.
Proof.
  intros Hws Ht1 Ht2 Hu1 Hu2. eexists. split.
  - unfold Pat.CITATION_GROUP, Star.
    apply exec_rep_all; auto; [reflexivity|lia|].
    rewrite exec_lit.
    apply exec_rep_nothing.
    + intros j [Hj1 Hj2].
      destruct j as [|j]; [lia|]. cbn [skipn].
      assert (B : span (neg (oneof "()"))
                       ("["%char :: t ++ "]"%char :: "("%char :: u
                            ++ ")"%char :: ")"%char :: post)
                  <= 1 + (List.length t + 1)).
      { cbn [span]. change (neg (oneof "()") "["%char) with true. cbv iota.
        pose proof (@span_until (neg (oneof "()")) (t ++ ["]"%char])
                      (u ++ ")"%char :: ")"%char :: post) "("%char eq_refl)
          as B.
        rewrite <- app_assoc in B. simpl in B. rewrite length_app in B.
        simpl in B. lia. }
      intros H.
      assert (I : In "["%char (t ++ ["]"%char; "("%char])).
      { apply (@hd_skipn_in j _ (u ++ ")"%char :: ")"%char :: post)).
        - rewrite length_app. simpl. lia.
        - rewrite <- app_assoc. exact H. }
      apply in_app_or in I. destruct I as [I|[I|[I|[]]]]; auto; discriminate.
    + rewrite exec_lit.
      apply exec_rep_all; [now apply not_in_forallb_neg| |lia|].
      * simpl. unfold neg, chr. now rewrite Ascii.eqb_refl.
      * rewrite !exec_lit.
        apply exec_rep_all; [now apply not_in_forallb_neg| | |].
        -- simpl. unfold neg, chr. now rewrite Ascii.eqb_refl.
        -- destruct u; [congruence|simpl; lia].
        -- rewrite exec_lit.
           change (")"%char :: post) with ([] ++ ")"%char :: post).
           apply exec_rep_all; [reflexivity|reflexivity|simpl; lia|].
           rewrite exec_lit. reflexivity.
  - cbn [m_end List.length]. lia.
Qed.

(** Lines 169-170 on a citation in parentheses that follows plain text. *)
Lemma remove_citation_group (pre ws t u post : str) :
  plain_answer pre -> plain_answer post ->
  (forall z a, pre = z ++ [a] -> is_space a = false) ->
  forallb is_space ws = true ->
  ~ In "]"%char t -> ~ In "["%char t -> u <> [] -> ~ In ")"%char u ->
  remove_citations
    (pre ++ ws ++ "("%char :: "["%char :: t ++ "]"%char :: "("%char :: u
         ++ ")"%char :: ")"%char :: post)
  = pre ++ post.
Proof.
  intros Hpre Hpost Hend Hws Ht1 Ht2 Hu1 Hu2.
  unfold remove_citations.
  rewrite (sub_no_match_prefix _ _ citation_group_anchor_free).
  - set (m := ws ++ "("%char :: "["%char :: t ++ "]"%char :: "("%char :: u
                 ++ [")"%char; ")"%char]).
    assert (Em : ws ++ "("%char :: "["%char :: t ++ "]"%char :: "("%char :: u
                    ++ ")"%char :: ")"%char :: post = m ++ post).
    { unfold m. rewrite <- !app_assoc. simpl. rewrite <- !app_assoc.
      simpl. rewrite <- !app_assoc. reflexivity. }
    destruct (@exec_citation_group ws t u post Hws Ht1 Ht2 Hu1 Hu2)
      as (r & Ex & Hr).
    rewrite Em in *.
    assert (Hm : m <> []) by (unfold m; destruct ws; discriminate).
    rewrite (@sub_match_here _ Pat.Drop m post _
               citation_group_anchor_free Hm Ex).
    + simpl.
      rewrite (@sub_absent _ _ Pat.Drop post citation_group_needs)
        by exact (plain_answer_absent "("%char Hpost eq_refl).
      apply (@sub_absent _ _ _ _ citation_needs).
      intros H. apply in_app_or in H. destruct H as [H|H].
      * exact (plain_answer_absent "["%char Hpre eq_refl H).
      * exact (plain_answer_absent "["%char Hpost eq_refl H).
    + rewrite Hr. unfold m. rewrite !length_app. cbn [List.length].
      rewrite length_app. cbn [List.length]. rewrite length_app. simpl. lia.
  - intros x y E Hy. unfold Pat.CITATION_GROUP.
    destruct (@last_not_space pre x y Hend E Hy) as (a & Ha & Sa).
    apply (@exec_blanks_then "("%char _ y _ a); auto.
    intros H. apply (plain_answer_absent "("%char Hpre eq_refl).
    rewrite E. apply in_or_app. now right.
Qed.

End Cleaner.

(** ** Whole tables *)

Module TableRows.

Import ReFacts StrFacts Table.

Lemma split_absent (sep : ascii) (a : str) :
  ~ In sep a -> split sep a = [a].
Proof.
  induction a as [|c a IH]; intros H; [reflexivity|].
  simpl. destruct (Ascii.eqb c sep) eqn:E.
  - apply Ascii.eqb_eq in E. subst. exfalso. apply H. now left.
  - rewrite IH; [reflexivity|]. intros Hin. apply H. now right.
Qed.

Lemma split_app_sep (sep : ascii) (a b : str) :
  ~ In sep a -> split sep (a ++ sep :: b) = a :: split sep b.
Proof.
  induction a as [|c a IH]; intros H.
  - simpl. now rewrite Ascii.eqb_refl.
  - simpl. destruct (Ascii.eqb c sep) eqn:E.
    + apply Ascii.eqb_eq in E. subst. exfalso. apply H. now left.
    + rewrite IH; [reflexivity|]. intros Hin. apply H. now right.
Qed.

(** Splitting what was joined gives the pieces back. *)
Lemma split_join (sep : ascii) (ls : list str) :
  ls <> [] -> (forall l, In l ls -> ~ In sep l) ->
  split sep (join [sep] ls) = ls.
Proof.
  induction ls as [|l ls IH]; intros Hne H; [congruence|].
  destruct ls as [|l2 ls].
  - simpl. apply split_absent. apply H. now left.
  - rewrite join_cons by discriminate. simpl app.
    rewrite split_app_sep by (apply H; now left).
    f_equal. apply IH; [discriminate|]. intros x Hx. apply H. now right.
Qed.

(** The text of a table row: a pipe, then every cell followed by a pipe. *)
Definition row_text (cells : list str) : str :=
  "|"%char :: flat_map (fun c => c ++ ["|"%char]) cells.

(** What the row becomes. *)
Definition row_line (cells : list str) : str :=
  join (lit " - ") (map strip cells).

(** Cells without pipe and line feed, none of them blank, one of them with
    something else than separator characters. *)
Definition good_row (cells : list str) : Prop :=
  cells <> [] /\
  (forall c, In c cells ->
             ~ In "|"%char c /\ ~ In LF c /\ nonblank c = true) /\
  (exists c a, In c cells /\ In a c /\ separator_char a = false).

Lemma split_cells (cells : list str) :
  (forall c, In c cells -> ~ In "|"%char c) ->
  split "|" (flat_map (fun c => c ++ ["|"%char]) cells) = cells ++ [[]].
Proof.
  induction cells as [|c cells IH]; intros H; [reflexivity|].
  cbn [flat_map]. rewrite <- app_assoc. simpl app.
  rewrite split_app_sep by (apply H; now left).
  rewrite IH; [reflexivity|]. intros x Hx. apply H. now right.
Qed.

Lemma filter_nonblank_cells (cells : list str) :
  (forall c, In c cells -> nonblank c = true) ->
  filter nonblank ([] :: cells ++ [[]]) = cells.
Proof.
  intros H. cbn [filter nonblank existsb]. rewrite filter_app.
  cbn [filter nonblank existsb]. rewrite app_nil_r.
  induction cells as [|c cells IH]; [reflexivity|].
  cbn [filter]. rewrite (H c) by (now left). f_equal.
  apply IH. intros x Hx. apply H. now right.
Qed.

Lemma separator_row_chars (line : str) :
  separator_row line = true -> forallb separator_char line = true.
Proof.
  intros H. apply separator_shape_row in H.
  destruct H as (w1 & m & w2 & -> & F1 & _ & F3 & F5).
  assert (W : forall w, forallb is_space w = true ->
                        forallb separator_char w = true).
  { intros w Hw. rewrite forallb_forall in *. intros a Ha.
    unfold separator_char, union. now rewrite (Hw a Ha). }
  rewrite forallb_app. rewrite (W _ F1). cbn [forallb andb].
  change (separator_char "|"%char) with true. cbn [andb].
  rewrite forallb_app, F3. cbn [forallb andb].
  change (separator_char "|"%char) with true. cbn [andb]. now apply W.
Qed.

Lemma In_row_text (cells : list str) (c : str) (a : ascii) :
  In c cells -> In a c -> In a (row_text cells).
Proof.
  intros Hc Ha. unfold row_text. right. apply in_flat_map.
  exists c. split; auto. apply in_or_app. now left.
Qed.

(** Line 49-53 on the text of a row. *)
Lemma table_row_cells (cells : list str) :
  good_row cells -> table_row (row_text cells) = [row_line cells].
Proof.
  intros (Hne & Hc & (c & a & Hin & Ha & Sa)). unfold table_row.
  destruct (separator_row (row_text cells)) eqn:S.
  - apply separator_row_chars in S. rewrite forallb_forall in S.
    rewrite (S a) in Sa; [discriminate|]. eapply In_row_text; eauto.
  - unfold row_text at 1. cbn [lstrip]. change (is_space "|"%char) with false.
    cbv iota. cbn [startswith]. rewrite Ascii.eqb_refl.
    unfold row_text. cbn [split]. rewrite Ascii.eqb_refl.
    rewrite split_cells by (intros x Hx; now apply Hc).
    rewrite filter_nonblank_cells by (intros x Hx; now apply Hc).
    unfold row_line. destruct cells; [congruence|reflexivity].
Qed.

Lemma row_text_no_newline (cells : list str) :
  good_row cells -> ~ In LF (row_text cells).
Proof.
  intros (_ & Hc & _) H. unfold row_text in H.
  destruct H as [H|H]; [discriminate|].
  apply in_flat_map in H. destruct H as (c & Hin & H).
  apply in_app_or in H. destruct H as [H|[H|[]]]; [|discriminate].
  now apply (Hc c Hin).
Qed.

Lemma table_rows_map (rows : list (list str)) :
  Forall good_row rows ->
  flat_map table_row (map row_text rows) = map row_line rows.
Proof.
  induction 1 as [|r rows Hr _ IH]; [reflexivity|].
  cbn [map flat_map]. rewrite table_row_cells by assumption.
  now rewrite IH.
Qed.

(** The table stage on a whole table: header, separator row, rows. *)
Lemma table_stage_table (header : list str) (sep : str)
      (rows : list (list str)) :
  good_row header -> Forall good_row rows ->
  separator_row sep = true -> ~ In LF sep ->
  table_stage (join [LF] (row_text header :: sep :: map row_text rows))
  = join [LF] (row_line header :: map row_line rows).
Proof.
  intros Hh Hr Hs Hn. unfold table_stage.
  rewrite split_join.
  - rewrite clean_table_lines_rows. cbn [flat_map].
    rewrite table_row_cells by assumption.
    unfold table_row at 1. rewrite Hs. cbn [app].
    now rewrite table_rows_map.
  - discriminate.
  - intros l [<-|[<-|Hl]]; auto.
    + now apply row_text_no_newline.
    + apply in_map_iff in Hl. destruct Hl as (r & <- & Hin).
      apply row_text_no_newline. rewrite Forall_forall in Hr. auto.
Qed.

End TableRows.

(** ** The search wrapper on the responses of the provider *)

Module SearchFacts.

Import Wrappers.

(** The text of a result of the provider, and its highlights. *)
Definition text_of (item : pyval) : pyval := getattr item "text" (PyStr []).

Definition highlights_of (item : pyval) : pyval :=
  getattr item "highlights" (PyList []).

(** What [search] makes of a result whose cleaned text is [content]. *)
Definition formatted (item : pyval) (content : str) : pyval :=
  PyDict
    [("title", getattr item "title" (pystr "No title"));
     ("url", getattr item "url" (PyStr []));
     ("content", PyStr content);
     ("score", if hasattr item "score"
               then getattr item "score" (PyInt 0) else PyInt 0);
     ("highlights", highlights_of item);
     ("published_date", getattr item "published_date" (PyStr []));
     ("author", getattr item "author" (PyStr []))]%string.





(** A result whose text is neither a string nor a false value. *)
Definition malformed (item : pyval) : Prop :=
  truthy (text_of item) = true /\ forall s, text_of item <> PyStr s.











Lemma clean_only_type_error (v : pyval) (e : exn) :
  clean_markdown_text v = inl e -> e = Builtin TypeError.
Proof.
  unfold clean_markdown_text. destruct (negb (truthy v)); [discriminate|].
  destruct v; try discriminate; now intros [= <-].
Qed.

Lemma clean_malformed (item : pyval) :
  malformed item -> clean_markdown_text (text_of item) = inl (Builtin TypeError).
Proof.
  intros [H1 H2]. unfold clean_markdown_text. rewrite H1. simpl.
  destruct (text_of item); try reflexivity. now destruct (H2 s).
Qed.

Lemma mapM_malformed (items : list pyval) tr :
  Exists malformed items ->
  mapM format_result items tr = (inl (Builtin TypeError), tr).
Proof.
  induction items as [|i items IH]; intros H; [inversion H|].
  cbn [mapM]. unfold bind at 1, format_result at 1, bind, lift, ret.
  fold (text_of i).
  destruct (clean_markdown_text (text_of i)) as [e|c] eqn:C.
  - now rewrite (clean_only_type_error _ C).
  - inversion H as [? ? Hm|? ? Hm]; subst.
    + rewrite (clean_malformed Hm) in C. discriminate.
    + fold (@bind (list pyval) (list pyval)). rewrite (IH Hm). reflexivity.
Qed.

Lemma search_malformed (W : world) (query : str) (max_results : Z)
      (attrs : list (string * pyval)) (items : list pyval) tr :
  search_and_contents W query max_results = inr (PyObj attrs) ->
  assoc "results" attrs = Some (PyList items) ->
  Exists malformed items ->
  search W query max_results tr
  = (inr (failed query (message_of W TypeError)),
     tr ++ [SearchAndContents query max_results]).
Proof.
  intros Hc Hr Hm. unfold search, try_except.
  unfold bind at 1, client_search_and_contents. rewrite Hc, Hr.
  unfold bind at 1, ret. unfold bind at 1, lift, iterate.
  unfold bind at 1. rewrite (mapM_malformed _ Hm). reflexivity.
Qed.

(** *** What the other methods make of the result *)

Definition is_formatted (f : pyval) : Prop :=
  exists item content, f = formatted item content.

Lemma clean_inr (v r : pyval) :
  clean_markdown_text v = inr r -> exists c, r = PyStr c.
Proof.
  unfold clean_markdown_text. destruct (negb (truthy v)).
  - intros [= <-]. eauto.
  - destruct v; try discriminate. intros [= <-]. eauto.
Qed.

Lemma format_result_inr (item f : pyval) tr tr' :
  format_result item tr = (inr f, tr') -> is_formatted f.
Proof.
  unfold format_result, bind, lift, ret. fold (text_of item).
  destruct (clean_markdown_text (text_of item)) as [e|c] eqn:C;
    [discriminate|].
  destruct (clean_inr _ C) as [c' ->]. intros [= <- _].
  exists item, c'. reflexivity.
Qed.

Lemma mapM_formatted (items : list pyval) :
  forall fs tr tr',
    mapM format_result items tr = (inr fs, tr') -> Forall is_formatted fs.
Proof.
  induction items as [|i items IH]; intros fs tr tr' H.
  - injection H as <- _. constructor.
  - cbn [mapM] in H. apply bind_inr in H. destruct H as (f & t1 & Hf & H).
    apply bind_inr in H. destruct H as (fs' & t2 & Hfs & H).
    injection H as <- _. constructor.
    + eapply format_result_inr; eauto.
    + eapply IH; eauto.
Qed.

Lemma search_found_formatted (W : world) (query : str) (max_results : Z)
      tr tr' (q sm : str) (fs : list pyval) (resp : pyval) :
  search W query max_results tr = (inr (found q sm fs resp), tr') ->
  Forall is_formatted fs.
Proof.
  unfold search, try_except.
  match goal with
  | |- context [bind ?m ?k tr] => set (body := bind m k)
  end.
  destruct (body tr) as [[e|d] tr1] eqn:E.
  - unfold ret, found. intros [= ]. 
  - intros [= -> _]. unfold body in E.
    apply bind_inr in E. destruct E as (response & t1 & _ & E).
    apply bind_inr in E. destruct E as (results & t2 & _ & E).
    apply bind_inr in E. destruct E as (items & t3 & _ & E).
    apply bind_inr in E. destruct E as (formatted' & t4 & Hm & E).
    apply bind_inr in E. destruct E as (hl & t5 & _ & E).
    apply bind_inr in E. destruct E as (summary & t6 & _ & E).
    unfold ret, found in E. injection E as _ _ <- _.
    eapply mapM_formatted; eauto.
Qed.

Lemma add_lengths_formatted (fs : list pyval) :
  Forall is_formatted fs ->
  forall acc, exists total,
    add_lengths "content" fs acc = inr total /\ (acc <= total)%Z.
Proof.
  induction 1 as [|f fs (i & c & ->) _ IH]; intros acc.
  - exists acc. split; [reflexivity|lia].
  - cbn [add_lengths]. unfold formatted, and_then, dict_get_default.
    cbn [assoc String.eqb Ascii.eqb Bool.eqb andb py_len].
    destruct (IH (acc + Z.of_nat (List.length c))%Z) as (total & E & L).
    exists total. split; [exact E|lia].
Qed.

Lemma urls_formatted (fs : list pyval) :
  Forall is_formatted fs ->
  exists urls,
    map_exn (fun r => dict_get_default r "url" (PyStr [])) fs = inr urls /\
    List.length urls = List.length fs.
Proof.
  induction 1 as [|f fs (i & c & ->) _ (urls & E & L)].
  - exists []. auto.
  - cbn [map_exn]. rewrite E. eexists. split; [reflexivity|].
    simpl. now rewrite L.
Qed.

End SearchFacts.

(** ** Emphasis, inline code and headers in plain text *)

Module Emphasis.

Import ReFacts StrFacts Walk Normalizer Links.

(** A run of the character [x]. *)
Definition rep (x : ascii) (n : nat) : str := repeat x n.

(** A pattern that captures a text between two runs of the character [x]:
    the patterns of lines 31, 32, 35 and 39. *)
Definition delimited (x : ascii) (n : nat) : pattern :=
  map L (rep x n) ++ GOpen :: Plus (neg (chr x)) :: GClose :: map L (rep x n).

Lemma exec_lits (o : str) (q : pattern) ma (s : str) :
  forall prev pos,
    exists prev',
      exec (map L o ++ q) ma prev (o ++ s) pos
      = exec q ma prev' s (pos + List.length o).
Proof.
  induction o as [|a o IH]; intros prev pos.
  - exists prev. simpl. now rewrite Nat.add_0_r.
  - cbn [map app]. rewrite exec_lit.
    destruct (IH (Some a) (pos + 1)) as [prev' E].
    exists prev'. rewrite E. cbn [List.length]. f_equal. lia.
Qed.

Lemma delimited_anchor_free (x : ascii) (n : nat) :
  anchor_free (delimited x n).
Proof.
  unfold anchor_free, delimited. rewrite forallb_app. cbn [forallb].
  assert (F : forallb (fun i => negb (looks_back i)) (map L (rep x n)) = true).
  { induction n; simpl; auto. }
  rewrite F. reflexivity.
Qed.

Lemma exec_delimited (x : ascii) (n : nat) (t post : str) :
  t <> [] -> ~ In x t ->
  exec (delimited x (Datatypes.S n)) false None
       (rep x (Datatypes.S n) ++ t ++ rep x (Datatypes.S n) ++ post) 0
  = Some {| m_end := 0 + List.length (rep x (Datatypes.S n)) + List.length t
                     + List.length (rep x (Datatypes.S n));
            g_start := Some (0 + List.length (rep x (Datatypes.S n)));
            g_end := Some (0 + List.length (rep x (Datatypes.S n))
                           + List.length t) |}.
Proof.
  intros Ht Hx. unfold delimited.
  destruct (exec_lits (rep x (Datatypes.S n))
              (GOpen :: Plus (neg (chr x)) :: GClose
                     :: map L (rep x (Datatypes.S n)))
              false (t ++ rep x (Datatypes.S n) ++ post) None 0) as [p1 E1].
  rewrite E1.
  set (b := 0 + List.length (rep x (Datatypes.S n))).
  set (e := b + List.length t + List.length (rep x (Datatypes.S n))).
  rewrite (@exec_gopen _ _ _ _ _
             {| m_end := e; g_start := None;
                g_end := Some (b + List.length t) |}); [reflexivity|].
  apply exec_rep_all.
  - now apply not_in_forallb_neg.
  - simpl. unfold neg, chr. now rewrite Ascii.eqb_refl.
  - destruct t; [congruence|simpl; lia].
  - rewrite (@exec_gclose _ _ _ _ _
               {| m_end := e; g_start := None; g_end := None |});
      [reflexivity|].
    destruct (exec_lits (rep x (Datatypes.S n)) [] false post
                (prev_at p1 t (List.length t)) (b + List.length t))
      as [p2 E2].
    rewrite app_nil_r in E2. rewrite E2. reflexivity.
Qed.

(** The first delimited text of a text is replaced by what it holds. *)
Lemma sub_delimited_first (x : ascii) (n : nat) (pre t post : str) :
  ~ In x pre -> t <> [] -> ~ In x t ->
  sub (delimited x (Datatypes.S n)) Pat.G1
      (pre ++ rep x (Datatypes.S n) ++ t ++ rep x (Datatypes.S n) ++ post)
  = pre ++ t ++ sub (delimited x (Datatypes.S n)) Pat.G1 post.
Proof.
  intros Hpre Ht Hx.
  rewrite (sub_no_match_prefix _ _ (delimited_anchor_free x (Datatypes.S n))).
  - f_equal.
    set (o := rep x (Datatypes.S n)).
    pose proof (@exec_delimited x n t post Ht Hx) as Ex. fold o in Ex.
    assert (Em : o ++ t ++ o ++ post = (o ++ t ++ o) ++ post)
      by (now rewrite <- !app_assoc).
    rewrite Em in *.
    assert (Hm : o ++ t ++ o <> []) by (unfold o; simpl; discriminate).
    rewrite (@sub_match_here _ Pat.G1 (o ++ t ++ o) post _
               (delimited_anchor_free x (Datatypes.S n)) Hm Ex).
    + f_equal. unfold Pat.G1, expand. cbn [flat_map]. rewrite app_nil_r.
      rewrite <- Em. now apply group1_at.
    + cbn [m_end]. rewrite !length_app. lia.
  - intros a y E Hy. unfold delimited. cbn [rep repeat map app].
    apply exec_lit_mismatch.
    destruct y as [|c y]; [congruence|]. simpl. intros [= ->].
    apply Hpre. rewrite E. apply in_or_app. right. now left.
Qed.

Lemma delimited_needs (x : ascii) (n : nat) :
  requires x (delimited x (Datatypes.S n)).
Proof.
  exists 1, (Some 1). split; [lia|]. unfold delimited. cbn [rep repeat map app].
  now left.
Qed.

Lemma bold_star_delimited : Pat.BOLD_STAR = delimited "*" 2.
Proof. reflexivity. Qed.

Lemma bold_under_delimited : Pat.BOLD_UNDER = delimited "_" 2.
Proof. reflexivity. Qed.

Lemma code_delimited : Pat.CODE = delimited "`" 1.
Proof. reflexivity. Qed.

Lemma plain_whole (pre t post : str) :
  plain pre -> plain t -> plain post -> plain (pre ++ t ++ post).
Proof. intros. repeat apply plain_app; auto. Qed.

Lemma absent_around (x y : ascii) (n : nat) (pre t post : str) :
  x <> y -> ~ In y pre -> ~ In y t -> ~ In y post ->
  ~ In y (pre ++ rep x n ++ t ++ rep x n ++ post).
Proof.
  intros Hxy H1 H2 H3 H.
  assert (R : ~ In y (rep x n)).
  { intros Hr. apply repeat_spec in Hr. congruence. }
  repeat (apply in_app_or in H; destruct H as [H|H]); auto.
Qed.

(** The stages after the one that matched have nothing left to do. *)
Lemma after_markers (s : str) :
  plain s -> table_stage s = s.
Proof.
  intros H. apply table_stage_absent. now apply plain_absent.
Qed.

Lemma clean_bold_star (pre t post : str) :
  plain pre -> plain t -> plain post -> t <> [] ->
  clean_markdown_str (pre ++ lit "**" ++ t ++ lit "**" ++ post)
  = tidy_whitespace (pre ++ t ++ post).
Proof.
  intros Hpre Ht Hpost Hne.
  assert (P : plain (pre ++ t ++ post)) by (now apply plain_whole).
  assert (N : forall y, y <> "*"%char -> markdown_char y = true ->
                        ~ In y (pre ++ lit "**" ++ t ++ lit "**" ++ post)).
  { intros y Hy My. apply (@absent_around "*"%char y 2); auto;
      now apply plain_absent. }
  unfold clean_markdown_str.
  rewrite (@sub_absent _ _ _ _ image_needs) by (apply N; [discriminate|reflexivity]).
  rewrite (@sub_absent _ _ _ _ link_needs) by (apply N; [discriminate|reflexivity]).
  unfold strip_markers.
  rewrite (@sub_absent _ _ _ _ header_needs) by (apply N; [discriminate|reflexivity]).
  rewrite bold_star_delimited. change (lit "**") with (rep "*"%char 2).
  rewrite (@sub_delimited_first "*"%char 1 pre t post)
    by (auto; now apply plain_absent).
  rewrite (@sub_absent _ _ _ post (delimited_needs "*"%char 1))
    by (now apply plain_absent).
  rewrite (@sub_absent _ _ _ _ bold_under_needs) by (now apply plain_absent).
  rewrite (@sub_absent _ _ _ _ italic_star_needs) by (now apply plain_absent).
  rewrite (@sub_absent _ _ _ _ italic_under_needs) by (now apply plain_absent).
  rewrite (@sub_absent _ _ _ _ code_needs) by (now apply plain_absent).
  now rewrite after_markers.
Qed.

Lemma clean_bold_under (pre t post : str) :
  plain pre -> plain t -> plain post -> t <> [] ->
  clean_markdown_str (pre ++ lit "__" ++ t ++ lit "__" ++ post)
  = tidy_whitespace (pre ++ t ++ post).
Proof.
  intros Hpre Ht Hpost Hne.
  assert (P : plain (pre ++ t ++ post)) by (now apply plain_whole).
  assert (N : forall y, y <> "_"%char -> markdown_char y = true ->
                        ~ In y (pre ++ lit "__" ++ t ++ lit "__" ++ post)).
  { intros y Hy My. apply (@absent_around "_"%char y 2); auto;
      now apply plain_absent. }
  unfold clean_markdown_str.
  rewrite (@sub_absent _ _ _ _ image_needs) by (apply N; [discriminate|reflexivity]).
  rewrite (@sub_absent _ _ _ _ link_needs) by (apply N; [discriminate|reflexivity]).
  unfold strip_markers.
  rewrite (@sub_absent _ _ _ _ header_needs) by (apply N; [discriminate|reflexivity]).
  rewrite (@sub_absent _ _ _ _ bold_star_needs) by (apply N; [discriminate|reflexivity]).
  rewrite bold_under_delimited. change (lit "__") with (rep "_"%char 2).
  rewrite (@sub_delimited_first "_"%char 1 pre t post)
    by (auto; now apply plain_absent).
  rewrite (@sub_absent _ _ _ post (delimited_needs "_"%char 1))
    by (now apply plain_absent).
  rewrite (@sub_absent _ _ _ _ italic_star_needs) by (now apply plain_absent).
  rewrite (@sub_absent _ _ _ _ italic_under_needs) by (now apply plain_absent).
  rewrite (@sub_absent _ _ _ _ code_needs) by (now apply plain_absent).
  now rewrite after_markers.
Qed.

Lemma clean_code (pre t post : str) :
  plain pre -> plain t -> plain post -> t <> [] ->
  clean_markdown_str (pre ++ lit "`" ++ t ++ lit "`" ++ post)
  = tidy_whitespace (pre ++ t ++ post).
Proof.
  intros Hpre Ht Hpost Hne.
  assert (P : plain (pre ++ t ++ post)) by (now apply plain_whole).
  assert (N : forall y, y <> "`"%char -> markdown_char y = true ->
                        ~ In y (pre ++ lit "`" ++ t ++ lit "`" ++ post)).
  { intros y Hy My. apply (@absent_around "`"%char y 1); auto;
      now apply plain_absent. }
  unfold clean_markdown_str.
  rewrite (@sub_absent _ _ _ _ image_needs) by (apply N; [discriminate|reflexivity]).
  rewrite (@sub_absent _ _ _ _ link_needs) by (apply N; [discriminate|reflexivity]).
  unfold strip_markers.
  rewrite (@sub_absent _ _ _ _ header_needs) by (apply N; [discriminate|reflexivity]).
  rewrite (@sub_absent _ _ _ _ bold_star_needs) by (apply N; [discriminate|reflexivity]).
  rewrite (@sub_absent _ _ _ _ bold_under_needs) by (apply N; [discriminate|reflexivity]).
  rewrite (@sub_absent _ _ _ _ italic_star_needs) by (apply N; [discriminate|reflexivity]).
  rewrite (@sub_absent _ _ _ _ italic_under_needs) by (apply N; [discriminate|reflexivity]).
  rewrite code_delimited. change (lit "`") with (rep "`"%char 1).
  rewrite (@sub_delimited_first "`"%char 0 pre t post)
    by (auto; now apply plain_absent).
  rewrite (@sub_absent _ _ _ post (delimited_needs "`"%char 0))
    by (now apply plain_absent).
  now rewrite after_markers.
Qed.

(** *** A header at the start of the text *)

Lemma sub_walk_skip_any (p : pattern) (t : template) (x rest : str) :
  forall prev, exists prev',
    sub_walk p t prev (x ++ rest) (List.length x) = sub_walk p t prev' rest 0.
Proof.
  induction x as [|a x IH]; intros prev.
  - exists prev. reflexivity.
  - cbn [app List.length sub_walk]. apply IH.
Qed.

Lemma forallb_rep (x : ascii) (k : nat) : forallb (chr x) (rep x k) = true.
Proof.
  induction k; simpl; auto. unfold chr at 1. now rewrite Ascii.eqb_refl.
Qed.

Lemma length_rep (x : ascii) (k : nat) : List.length (rep x k) = k.
Proof. apply repeat_length. Qed.

Lemma exec_rep_all_hi (c : charclass) (lo h : nat) (p : pattern) ma prev
      (t z : str) (pos : nat) (r : capture) :
  forallb c t = true -> stops c z -> lo <= List.length t <= h ->
  exec p ma (prev_at prev t (List.length t)) z (pos + List.length t) = Some r ->
  exec (Rep c lo (Some h) :: p) ma prev (t ++ z) pos = Some r.
Proof.
  intros Ht Hz Hlo Hr. cbn [exec run]. rewrite span_exact by assumption.
  rewrite Nat.min_r by lia.
  apply try_down_first; [lia|].
  now rewrite Accept.skipn_app_length, prev_at_app.
Qed.

Lemma exec_header (k : nat) (ws t : str) :
  1 <= k <= 6 -> forallb is_space ws = true ->
  ~ In "#"%char t -> stops is_space t ->
  exec Pat.HEADER false None (rep "#" k ++ ws ++ t) 0
  = Some {| m_end := 0 + k + List.length ws; g_start := None; g_end := None |}.
Proof.
  intros Hk Hws Ht Hs. unfold Pat.HEADER.
  change (exec (Bol :: ?p) false None ?s 0) with (exec p false None s 0).
  apply exec_rep_all_hi.
  - apply forallb_rep.
  - destruct ws as [|w ws]; simpl.
    + destruct t as [|c t]; simpl; auto. unfold chr.
      destruct (Ascii.eqb "#" c) eqn:E; auto.
      apply Ascii.eqb_eq in E. subst. exfalso. apply Ht. now left.
    + simpl in Hws. apply andb_true_iff in Hws. destruct Hws as [Hw _].
      unfold chr. destruct (Ascii.eqb "#" w) eqn:E; auto.
      apply Ascii.eqb_eq in E. subst. discriminate.
  - rewrite length_rep. lia.
  - rewrite length_rep. unfold Star, Pat.ws.
    apply exec_rep_all; auto; try lia; reflexivity.
Qed.

Lemma sub_header_start (k : nat) (ws t : str) :
  1 <= k <= 6 -> forallb is_space ws = true ->
  ~ In "#"%char t -> stops is_space t ->
  sub Pat.HEADER Pat.Drop (rep "#" k ++ ws ++ t) = t.
Proof.
  intros Hk Hws Ht Hs. unfold sub.
  pose proof (@exec_header k ws t Hk Hws Ht Hs) as Ex.
  destruct k as [|k]; [lia|].
  cbn [rep repeat app] in *. cbn [sub_walk]. rewrite Ex. cbn [m_end].
  replace (0 + Datatypes.S k + List.length ws)
    with (Datatypes.S (List.length (repeat "#"%char k ++ ws)))
    by (rewrite length_app, repeat_length; lia).
  destruct (sub_walk_skip_any Pat.HEADER Pat.Drop (repeat "#"%char k ++ ws) t
              (Some "#"%char)) as [prev' E].
  rewrite <- app_assoc in E. rewrite E.
  unfold expand, Pat.Drop. cbn [flat_map app].
  now apply (sub_walk_absent _ header_needs).
Qed.

Lemma clean_header (k : nat) (ws t : str) :
  1 <= k <= 6 -> forallb is_space ws = true ->
  plain t -> stops is_space t ->
  clean_markdown_str (rep "#" k ++ ws ++ t) = tidy_whitespace t.
Proof.
  intros Hk Hws Ht Hs.
  assert (N : ~ In "["%char (rep "#" k ++ ws ++ t)).
  { intros H. apply in_app_or in H. destruct H as [H|H].
    - apply repeat_spec in H. discriminate.
    - apply in_app_or in H. destruct H as [H|H].
      + rewrite forallb_forall in Hws. specialize (Hws _ H). discriminate.
      + now apply (@plain_absent "["%char t Ht). }
  unfold clean_markdown_str.
  rewrite (@sub_absent _ _ _ _ image_needs) by assumption.
  rewrite (@sub_absent _ _ _ _ link_needs) by assumption.
  unfold strip_markers.
  rewrite sub_header_start by (auto; now apply plain_absent).
  rewrite (@sub_absent _ _ _ _ bold_star_needs) by (now apply plain_absent).
  rewrite (@sub_absent _ _ _ _ bold_under_needs) by (now apply plain_absent).
  rewrite (@sub_absent _ _ _ _ italic_star_needs) by (now apply plain_absent).
  rewrite (@sub_absent _ _ _ _ italic_under_needs) by (now apply plain_absent).
  rewrite (@sub_absent _ _ _ _ code_needs) by (now apply plain_absent).
  now rewrite after_markers.
Qed.

End Emphasis.

(** ** Where the characters of the output come from *)

Module Origin.

Import ReFacts StrFacts.














End Origin.

(** * More of the code *)

(** Tactics that settle the side conditions on given texts. *)
Ltac in_cases H :=
  repeat (destruct H as [<-|H]; [try reflexivity; try discriminate|]);
  try contradiction.

Ltac all_chars := let a := fresh "a" in let H := fresh "H" in
  intros a H; vm_compute in H; in_cases H.

Ltac no_char := let H := fresh "H" in let E := fresh "E" in
  intros H; vm_compute in H;
  repeat (destruct H as [E|H]; [discriminate E|]); contradiction.

Ltac last_char := let E := fresh "E" in
  intros ? ? E; apply (f_equal (@rev ascii)) in E;
  rewrite rev_app_distr in E; vm_compute in E;
  try discriminate; injection E as <-; reflexivity.

Ltac trimmed_text :=
  split; [intros ? ? [= <- _]; reflexivity | last_char].

Ltac no_runs := apply Runs.no_run_not_has_run; [lia|vm_compute; reflexivity].

(** ** The normalizer *)

(** X1. Whatever the input, the normalized text has no three line feeds in
    a row, no tab, no two adjacent blanks (spaces or tabs), and neither
    starts nor ends with whitespace. *)
Theorem normalized_text_is_tidy (x : str) :
  exists y,
    clean_markdown_text (PyStr x) = inr (PyStr y) /\
    ~ Runs.has_run Tidy.newline 3 y /\
    ~ Runs.has_run Tidy.blank 2 y /\
    ~ In TAB y /\
    StrFacts.trimmed y.
Proof.
  exists (clean_markdown_str x). split.
  - apply Normalizer.clean_markdown_text_str.
  - apply Runs.tidy_tidy_text, Normalizer.clean_markdown_str_tidy.
Qed.

(** X2. A text that is already clean is returned as it is: no character
    among [ * _ ` # |, no three line feeds in a row, no tab, no two
    adjacent spaces, no whitespace at either end. *)
Theorem plain_tidy_text_unchanged (y : str) :
  Links.plain y ->
  ~ Runs.has_run Tidy.newline 3 y -> ~ Runs.has_run Tidy.blank 2 y ->
  ~ In TAB y -> StrFacts.trimmed y ->
  clean_markdown_text (PyStr y) = inr (PyStr y).
Proof.
  intros Hp H1 H2 H3 H4. rewrite Normalizer.clean_markdown_text_str.
  do 2 f_equal. apply Normalizer.clean_markdown_str_fixed; auto.
  apply Runs.tidy_tidy_text. repeat split; auto; apply H4.
Qed.

Definition two_paragraphs : str :=
  nl (lit "Neural search returns content.") (LF :: lit "Snippets do not (yet).").

Lemma plain_tidy_text_unchanged_witness :
  clean_markdown_text (PyStr two_paragraphs) = inr (PyStr two_paragraphs).
Proof.
  apply plain_tidy_text_unchanged.
  - all_chars.
  - no_runs.
  - no_runs.
  - no_char.
  - trimmed_text.
Defined.





(** X5. A markdown table (a header row, a separator row, any number of
    rows, each row written as a pipe followed by every cell and a pipe)
    goes through the table stage as one line per row, the trimmed cells
    joined with " - ", and the separator row is gone.  The cells have no
    pipe and no line feed, none is blank, and each row has a cell with
    something else than blanks, dashes and colons. *)
Theorem table_collapses (header : list str) (sep : str)
        (rows : list (list str)) :
  TableRows.good_row header -> Forall TableRows.good_row rows ->
  Table.separator_row sep = true -> ~ In LF sep ->
  table_stage
    (join [LF] (TableRows.row_text header :: sep
                  :: map TableRows.row_text rows))
  = join [LF] (TableRows.row_line header :: map TableRows.row_line rows).
Proof. apply TableRows.table_stage_table. Qed.

Ltac good_cells := let c := fresh "c" in let H := fresh "H" in
  intros c H; simpl in H;
  repeat (destruct H as [<-|H];
          [split; [no_char|split; [no_char|reflexivity]]|]);
  contradiction.

Ltac good_row_with c a :=
  split; [discriminate|split; [good_cells|exists c, a; simpl; auto]].

Lemma table_collapses_witness :
  table_stage
    (nl (lit "| Name | Role |") (nl (lit "|:-----|-----:|")
        (nl (lit "| Ada | Author |") (lit "| Bob |  Editor|"))))
  = nl (lit "Name - Role") (nl (lit "Ada - Author") (lit "Bob - Editor")).
Proof.
  apply (@table_collapses [lit " Name "; lit " Role "] (lit "|:-----|-----:|")
           [[lit " Ada "; lit " Author "]; [lit " Bob "; lit "  Editor"]]).
  - good_row_with (lit " Name ") "N"%char.
  - constructor; [good_row_with (lit " Ada ") "A"%char|].
    constructor; [good_row_with (lit " Bob ") "B"%char|]. constructor.
  - reflexivity.
  - no_char.
Defined.

(** ** The answer cleaner *)

(** X6. The cleaned answer never has two whitespace characters side by
    side, so no blank line survives, and it has no whitespace at either
    end.  The substitution of line 186 never finds anything to replace:
    the last stage is the same without it. *)
Theorem cleaned_answer_spacing (raw_answer : str) :
  ~ Runs.has_run is_space 2 (clean_answer_str raw_answer) /\
  StrFacts.trimmed (clean_answer_str raw_answer) /\
  forall s,
    final_cleanup s
    = strip (sub Pat.SPACES2 (Pat.T " ") (sub Pat.SPACE_PUNCT Pat.G1 s)).
Proof.
  unfold clean_answer_str. repeat split.
  - apply Runs.no_run_not_has_run; [lia|].
    apply Cleaner.final_cleanup_spacing.
  - unfold final_cleanup. apply StrFacts.strip_trimmed.
  - unfold final_cleanup. apply StrFacts.strip_trimmed.
  - intros s. apply Cleaner.final_cleanup_spacing.
Qed.

(** A check for a blank before a punctuation mark. *)
Fixpoint spaced_punct (s : str) : bool :=
  match s with
  | [] => false
  | w :: t =>
      match t with
      | q :: _ => is_space w && oneof ".,!?" q
      | [] => false
      end || spaced_punct t
  end.

Lemma spaced_punct_false (s : str) :
  spaced_punct s = false -> ~ Runs.space_before_punct s.
Proof.
  intros H (x & w & q & y & -> & Hw & Hq).
  induction x as [|a x IH].
  - simpl in H. rewrite Hw, Hq in H. discriminate.
  - apply IH. change ((a :: x) ++ w :: q :: y)
      with (a :: (x ++ w :: q :: y)) in H.
    cbn [spaced_punct] in H. apply orb_false_iff in H. apply H.
Qed.

(** X7. An answer with nothing to clean is returned as it is: no
    character among ( ) [ * # `, no blank before . , ! ?, no two adjacent
    whitespace characters, no whitespace at either end. *)
Theorem plain_answer_unchanged (s : str) :
  Cleaner.plain_answer s ->
  ~ Runs.space_before_punct s ->
  ~ Runs.has_run is_space 2 s ->
  StrFacts.trimmed s ->
  clean_answer_str s = s.
Proof.
  intros Hp H1 H2 H3. unfold clean_answer_str.
  rewrite Cleaner.before_cleanup_plain by assumption.
  now apply Cleaner.final_cleanup_fixed.
Qed.

Lemma plain_answer_unchanged_witness :
  clean_answer_str (lit "Paris is the capital of France, since 987!")
  = lit "Paris is the capital of France, since 987!".
Proof.
  apply plain_answer_unchanged.
  - all_chars.
  - apply spaced_punct_false. vm_compute. reflexivity.
  - no_runs.
  - trimmed_text.
Defined.

(** X8. A citation [text](target) that follows plain text is removed
    together with the whitespace before it: the answer is cleaned as if it
    had not been there.  The text before it has none of ( ) [ * # ` and
    does not end with whitespace, the text after it has none of them
    either; the text of the citation has no closing bracket and no opening
    parenthesis, the target is not empty and has no parenthesis and no
    opening bracket. *)
Theorem citation_removed (pre ws t u post : str) :
  Cleaner.plain_answer pre -> Cleaner.plain_answer post ->
  (forall z a, pre = z ++ [a] -> is_space a = false) ->
  forallb is_space ws = true ->
  ~ In "]"%char t -> ~ In "("%char t ->
  u <> [] -> ~ In "("%char u -> ~ In ")"%char u -> ~ In "["%char u ->
  clean_answer_str
    (pre ++ ws ++ "["%char :: t ++ "]"%char :: "("%char :: u
         ++ ")"%char :: post)
  = final_cleanup (pre ++ post).
Proof.
  intros Hpre Hpost. intros. unfold clean_answer_str.
  rewrite Cleaner.remove_citation by assumption.
  assert (P : Cleaner.plain_answer (pre ++ post))
    by (now apply Cleaner.plain_answer_app).
  rewrite Cleaner.repair_punctuation_absent
    by (apply (Cleaner.plain_answer_absent _ P); reflexivity).
  rewrite AnswerMarkers.strip_answer_markers_absent
    by (apply (Cleaner.plain_answer_absent _ P); reflexivity).
  reflexivity.
Qed.

Lemma citation_removed_witness :
  clean_answer_str
    (lit "Rust is memory safe" ++ lit "  " ++ "["%char :: lit "Rust Book"
         ++ "]"%char :: "("%char :: lit "https://doc.rust-lang.org/book/"
         ++ ")"%char :: lit ". It has no GC.")
  = lit "Rust is memory safe. It has no GC.".
Proof.
  rewrite citation_removed.
  - vm_compute. reflexivity.
  - all_chars.
  - all_chars.
  - last_char.
  - reflexivity.
  - no_char.
  - no_char.
  - discriminate.
  - no_char.
  - no_char.
  - no_char.
Defined.

(** X9. The same for a citation in parentheses, ([text](target)): it is
    removed with the whitespace before it.  Here the text of the citation
    has no square bracket; the target is not empty and has no closing
    parenthesis. *)
Theorem citation_group_removed (pre ws t u post : str) :
  Cleaner.plain_answer pre -> Cleaner.plain_answer post ->
  (forall z a, pre = z ++ [a] -> is_space a = false) ->
  forallb is_space ws = true ->
  ~ In "]"%char t -> ~ In "["%char t -> u <> [] -> ~ In ")"%char u ->
  clean_answer_str
    (pre ++ ws ++ "("%char :: "["%char :: t ++ "]"%char :: "("%char :: u
         ++ ")"%char :: ")"%char :: post)
  = final_cleanup (pre ++ post).
Proof.
  intros Hpre Hpost. intros. unfold clean_answer_str.
  rewrite Cleaner.remove_citation_group by assumption.
  assert (P : Cleaner.plain_answer (pre ++ post))
    by (now apply Cleaner.plain_answer_app).
  rewrite Cleaner.repair_punctuation_absent
    by (apply (Cleaner.plain_answer_absent _ P); reflexivity).
  rewrite AnswerMarkers.strip_answer_markers_absent
    by (apply (Cleaner.plain_answer_absent _ P); reflexivity).
  reflexivity.
Qed.

Lemma citation_group_removed_witness :
  clean_answer_str
    (lit "Paris is the capital" ++ lit " " ++ "("%char :: "["%char
         :: lit "Source" ++ "]"%char :: "("%char :: lit "http://a.com"
         ++ ")"%char :: ")"%char :: lit ".")
  = lit "Paris is the capital.".
Proof.
  rewrite citation_group_removed.
  - vm_compute. reflexivity.
  - all_chars.
  - all_chars.
  - last_char.
  - reflexivity.
  - no_char.
  - no_char.
  - discriminate.
  - no_char.
Defined.

(** ** The search wrapper *)


Definition demo_results : list pyval :=
  [PyObj [("title", pystr "Docs");
          ("url", pystr "http://x.com/y");
          ("text", pystr "See [docs](http://x.com/y) now");
          ("highlights", PyList [pystr "See docs"])]%string].

Ltac well_formed_item :=
  split; [right; eexists; reflexivity
         | eexists (_ :: _); reflexivity || (exists []; reflexivity)].


(** X11. One result whose text is neither a string nor a false value is
    enough for [search] to return the error dictionary, with the message of
    the [TypeError] and no results at all: the results that were fine are
    not returned. *)
Theorem search_discards_on_malformed
        (W : world) (query : str) (max_results : Z)
        (attrs : list (string * pyval)) (items : list pyval) tr :
  search_and_contents W query max_results = inr (PyObj attrs) ->
  assoc "results" attrs = Some (PyList items) ->
  Exists SearchFacts.malformed items ->
  search W query max_results tr
  = (inr (PyDict [("error", PyStr (message_of W TypeError));
                  ("query", PyStr query);
                  ("results", PyList [])]%string),
     tr ++ [SearchAndContents query max_results]).
Proof. apply SearchFacts.search_malformed. Qed.

(** The provider returns [response] for every search. *)
Definition searching (W : world) (response : exn + pyval) : world :=
  {| search_and_contents := fun _ _ => response;
     answer := answer W;
     message_of := message_of W;
     repr := repr W;
     title := title W;
     DEFAULT_MAX_RESULTS := DEFAULT_MAX_RESULTS W;
     calculate_exa_metrics := calculate_exa_metrics W;
     calculate_traditional_metrics := calculate_traditional_metrics W;
     compare_metrics := compare_metrics W |}.

Definition one_bad_result : list pyval :=
  demo_results ++ [PyObj [("title", pystr "Odd"); ("text", PyInt 7)]%string].

Lemma search_discards_on_malformed_witness :
  search (searching demo_world
                    (inr (PyObj [("results", PyList one_bad_result)]%string)))
         (lit "rag") 3 []
  = (inr (PyDict [("error", pystr "TypeError");
                  ("query", pystr "rag");
                  ("results", PyList [])]%string),
     [SearchAndContents (lit "rag") 3]).
Proof.
  apply (@search_discards_on_malformed
           (searching demo_world
                      (inr (PyObj [("results", PyList one_bad_result)]%string)))
           (lit "rag") 3
           [("results", PyList one_bad_result)]%string one_bad_result []
           eq_refl eq_refl).
  apply Exists_cons_tl, Exists_cons_hd. split; [reflexivity|].
  intros s. discriminate.
Defined.

(** X12. On whatever [search] returns, [get_extracted_content_length]
    gives an integer that is not negative and [get_result_urls] gives a
    list with one entry for every result; neither raises. *)
Theorem search_result_measures (W : world) (query : str) (max_results : Z) tr :
  exists d results total urls,
    search W query max_results tr
    = (inr (PyDict d), tr ++ [SearchAndContents query max_results]) /\
    assoc "results" d = Some (PyList results) /\
    get_extracted_content_length (PyDict d) = inr (PyInt total) /\
    (0 <= total)%Z /\
    get_result_urls (PyDict d) = inr (PyList urls) /\
    List.length urls = List.length results.
Proof.
  destruct (Wrappers.search_shapes W query max_results tr)
    as (v & E & [(sm & fs & resp & _ & ->)|(msg & ->)]).
  - pose proof (SearchFacts.search_found_formatted _ _ _ _ E) as F.
    destruct (SearchFacts.add_lengths_formatted F 0) as (total & A & L).
    destruct (SearchFacts.urls_formatted F) as (urls & U & Lu).
    eexists. exists fs, total, urls. split; [exact E|].
    split; [reflexivity|].
    unfold get_extracted_content_length, get_result_urls, and_then.
    cbn [dict_get_default assoc String.eqb Ascii.eqb Bool.eqb andb iterate].
    rewrite A, U. auto.
  - eexists. exists [], 0%Z, []. split; [exact E|].
    split; [reflexivity|]. split; [reflexivity|]. split; [lia|].
    split; reflexivity.
Qed.

(** ** The answer wrapper *)

(** X13. When the client returns an answer that is a string and citations
    that are a list, [get_answer] returns the cleaned answer, the urls of
    the citations in their order (the empty string for a citation without
    url), and no error. *)
Theorem get_answer_cleans (W : world) (query : str) (response : pyval)
        (s : str) (citations : list pyval) tr :
  answer W query = inr response ->
  getattr response "answer" (PyStr []) = PyStr s ->
  getattr response "citations" (PyList []) = PyList citations ->
  get_answer W query tr
  = (inr (PyDict
            [("answer", PyStr (clean_answer_str s));
             ("citation_urls",
              PyList (map (fun c => getattr c "url" (PyStr [])) citations));
             ("error", PyNone)]%string),
     tr ++ [Answer query]).
Proof.
  intros Ha Hs Hc. unfold get_answer, try_except, bind at 1, client_answer.
  rewrite Ha, Hs. unfold bind, ret, lift. rewrite Hc. reflexivity.
Qed.

Lemma get_answer_cleans_witness :
  get_answer demo_world (lit "capital of France") []
  = (inr (PyDict
            [("answer", pystr "Paris is the capital.");
             ("citation_urls", PyList [pystr "http://a.com"; pystr "http://b.com"]);
             ("error", PyNone)]%string),
     [Answer (lit "capital of France")]).
Proof.
  rewrite (@get_answer_cleans demo_world (lit "capital of France") _ _ _ []
             eq_refl eq_refl eq_refl).
  vm_compute. reflexivity.
Defined.

(** X14. [get_answer] never returns a half result: either the error is
    [None], or the answer is the empty string, the list of urls is empty
    and the error is a message.  Whatever the client does, it is called
    once. *)
Theorem get_answer_all_or_nothing (W : world) (query : str) tr :
  exists text urls err,
    get_answer W query tr
    = (inr (PyDict [("answer", PyStr text);
                    ("citation_urls", PyList urls);
                    ("error", err)]%string),
       tr ++ [Answer query]) /\
    (err = PyNone \/
     (text = [] /\ urls = [] /\ exists msg, err = PyStr msg)).
Proof.
  unfold get_answer, try_except, bind at 1, client_answer.
  destruct (answer W query) as [e|response].
  - do 3 eexists. split; [reflexivity|]. right. eauto.
  - destruct (getattr response "answer" (PyStr [])) as [| | |s| | |];
      try (do 3 eexists; split; [reflexivity|]; right; eauto).
    unfold bind, ret, lift.
    destruct (iterate (getattr response "citations" (PyList []))).
    + do 3 eexists. split; [reflexivity|]. right. eauto.
    + do 3 eexists. split; [reflexivity|]. now left.
Qed.

(** ** The traditional search *)

(** How many results a request for [max_results] gives. *)
Definition result_count (max_results : Z) : Z :=
  if (0 <=? max_results)%Z then Z.min max_results 10
  else Z.max 0 (10 + max_results).

Lemma results_prefix (W : world) (query : str) (max_results : Z) :
  _generate_mock_results W query max_results
  = firstn (Z.to_nat (result_count max_results))
           (_generate_mock_results W query 10) /\
  Z.of_nat (List.length (_generate_mock_results W query max_results))
  = result_count max_results.
Proof.
  unfold _generate_mock_results. cbv zeta.
  match goal with
  | |- context [slice_to max_results ?l] => set (templates := l)
  end.
  assert (L : List.length templates = 10) by reflexivity.
  assert (T : slice_to 10 templates = templates) by reflexivity.
  rewrite T. unfold slice_to, result_count. rewrite L.
  destruct (0 <=? max_results)%Z eqn:E.
  - apply Z.leb_le in E.
    destruct (Z.le_gt_cases max_results 10) as [H|H].
    + rewrite Z.min_l by assumption. split; [reflexivity|].
      rewrite length_firstn, L. lia.
    + rewrite Z.min_r by lia.
      rewrite (firstn_all2 (n := Z.to_nat max_results)) by (rewrite L; lia).
      rewrite (firstn_all2 (n := Z.to_nat 10)) by (rewrite L; lia).
      split; [reflexivity|]. rewrite L. lia.
  - apply Z.leb_gt in E.
    replace (Z.to_nat (Z.max 0 (10 + max_results)))
      with (Z.to_nat (Z.of_nat 10 + max_results)) by lia.
    split; [reflexivity|]. rewrite length_firstn, L. lia.
Qed.

(** X15. For every [max_results], negative ones too, the results are the
    first ones of the ten templates: [min(max_results, 10)] of them when
    [max_results] is not negative, [max(0, 10 + max_results)] otherwise.
    Asking for more results never changes the ones already given. *)
Theorem traditional_results_prefix (W : world) (query : str) (max_results : Z) :
  _generate_mock_results W query max_results
  = firstn (Z.to_nat (result_count max_results))
           (_generate_mock_results W query 10) /\
  Z.of_nat (List.length (_generate_mock_results W query max_results))
  = result_count max_results.
Proof. apply results_prefix. Qed.

(** A url that starts with "https://" and has no space. *)
Definition good_url (u : str) : Prop :=
  firstn 8 u = lit "https://" /\ ~ In " "%char u.

Lemma replace_no_space (t s : str) :
  ~ In " "%char t -> ~ In " "%char (replace " " t s).
Proof.
  intros Ht H. unfold replace in H. apply in_flat_map in H.
  destruct H as (a & _ & H).
  destruct (Ascii.eqb a " ") eqn:E; [contradiction|].
  destruct H as [Ha|[]]. subst a. discriminate.
Qed.

Ltac no_space H :=
  repeat (apply in_app_or in H; destruct H as [H|H]);
  try (revert H; apply replace_no_space; no_char);
  try (revert H; no_char).

Lemma results_urls (W : world) (query : str) (max_results : Z) :
  Forall (fun r => exists t u sn,
              r = PyDict [("title", PyStr t); ("url", PyStr u);
                          ("snippet", PyStr sn)]%string /\
              good_url u)
         (_generate_mock_results W query max_results).
Proof.
  destruct (results_prefix W query max_results) as [-> _].
  apply Forall_forall. intros r Hr. apply ReFacts.In_firstn in Hr.
  revert r Hr. apply Forall_forall.
  unfold _generate_mock_results. cbv zeta.
  change (slice_to 10 ?l) with l. unfold template_entry.
  repeat (constructor;
          [do 3 eexists; split; [reflexivity|];
           split; [reflexivity|];
           let H := fresh "H" in intros H; no_space H|]).
  constructor.
Qed.

(** X16. Every result of the traditional search has a url that starts
    with "https://" and contains no space, whatever the query: the spaces
    of the query are replaced. *)
Theorem traditional_urls (W : world) (query : str) (max_results : Z) :
  Forall (fun r => exists t u sn,
              r = PyDict [("title", PyStr t); ("url", PyStr u);
                          ("snippet", PyStr sn)]%string /\
              good_url u)
         (_generate_mock_results W query max_results).
Proof. apply results_urls. Qed.

(** X17. On what the traditional search returns, [get_snippet_length]
    gives an integer that is not negative and [get_result_urls] gives as
    many urls as [total_results] says; neither raises. *)
Theorem traditional_measures (W : world) (query : str) (max_results : Z) :
  exists total urls,
    get_snippet_length (traditional_search W query max_results)
    = inr (PyInt total) /\
    (0 <= total)%Z /\
    traditional_get_result_urls (traditional_search W query max_results)
    = inr (PyList urls) /\
    Z.of_nat (List.length urls) = result_count max_results /\
    dict_get (traditional_search W query max_results) "total_results"
    = inr (PyInt (result_count max_results)).
Proof.
  destruct (results_prefix W query max_results) as [_ Hc].
  pose proof (results_urls W query max_results) as F.
  unfold traditional_search, get_snippet_length, traditional_get_result_urls,
    and_then.
  cbn [dict_get_default dict_get assoc String.eqb Ascii.eqb Bool.eqb andb
       iterate].
  rewrite Hc.
  revert Hc F. generalize (_generate_mock_results W query max_results).
  intros rs Hc F.
  assert (A : forall acc, exists total,
               add_lengths "snippet" rs acc = inr total /\ (acc <= total)%Z).
  { clear Hc. induction F as [|r rs (t & u & sn & -> & _) _ IH]; intros acc.
    - exists acc. split; [reflexivity|lia].
    - cbn [add_lengths]. unfold and_then, dict_get_default.
      cbn [assoc String.eqb Ascii.eqb Bool.eqb andb py_len].
      destruct (IH (acc + Z.of_nat (List.length sn))%Z) as (total & E & L).
      exists total. split; [exact E|lia]. }
  assert (U : exists urls,
             map_exn (fun r => dict_get_default r "url" (PyStr [])) rs
             = inr urls /\ List.length urls = List.length rs).
  { clear Hc A. induction F as [|r rs (t & u & sn & -> & _) _ (urls & E & L)].
    - exists []. auto.
    - cbn [map_exn]. rewrite E. eexists. split; [reflexivity|].
      simpl. now rewrite L. }
  destruct (A 0%Z) as (total & E & L). destruct U as (urls & Eu & Lu).
  exists total, urls. rewrite E, Eu, Lu. auto.
Qed.

(** ** The handler *)












(** ** More on the two cleaners *)

(** X21. Bold text written **text** or __text__ and inline code written
    `text`, inside text without markdown, are replaced by the text they
    hold; the rest is only tidied. *)
Theorem emphasis_in_plain_text (pre t post : str) :
  Links.plain pre -> Links.plain t -> Links.plain post -> t <> [] ->
  clean_markdown_text (PyStr (pre ++ lit "**" ++ t ++ lit "**" ++ post))
  = inr (PyStr (tidy_whitespace (pre ++ t ++ post))) /\
  clean_markdown_text (PyStr (pre ++ lit "__" ++ t ++ lit "__" ++ post))
  = inr (PyStr (tidy_whitespace (pre ++ t ++ post))) /\
  clean_markdown_text (PyStr (pre ++ lit "`" ++ t ++ lit "`" ++ post))
  = inr (PyStr (tidy_whitespace (pre ++ t ++ post))).
Proof.
  intros. rewrite !Normalizer.clean_markdown_text_str.
  rewrite Emphasis.clean_bold_star, Emphasis.clean_bold_under,
    Emphasis.clean_code by assumption.
  auto.
Qed.

Lemma emphasis_in_plain_text_witness :
  clean_markdown_text
    (PyStr (lit "Use " ++ lit "**" ++ lit "pip install" ++ lit "**"
                ++ lit " first."))
  = inr (PyStr (lit "Use pip install first.")) /\
  clean_markdown_text
    (PyStr (lit "Use " ++ lit "__" ++ lit "pip install" ++ lit "__"
                ++ lit " first."))
  = inr (PyStr (lit "Use pip install first.")) /\
  clean_markdown_text
    (PyStr (lit "Use " ++ lit "`" ++ lit "pip install" ++ lit "`"
                ++ lit " first."))
  = inr (PyStr (lit "Use pip install first.")).
Proof.
  destruct (@emphasis_in_plain_text (lit "Use ") (lit "pip install")
              (lit " first.")) as (E1 & E2 & E3).
  - all_chars.
  - all_chars.
  - all_chars.
  - discriminate.
  - rewrite E1, E2, E3. vm_compute. auto.
Defined.

(** X22. A text that starts with one to six hashes, then whitespace, then
    text without markdown that does not start with whitespace, is
    normalized as that text alone: the header marker and the whitespace
    after it, line feeds included, are removed. *)
Theorem header_at_start (k : nat) (ws t : str) :
  1 <= k <= 6 -> forallb is_space ws = true ->
  Links.plain t -> Walk.stops is_space t ->
  clean_markdown_text (PyStr (repeat "#"%char k ++ ws ++ t))
  = inr (PyStr (tidy_whitespace t)).
Proof.
  intros. rewrite Normalizer.clean_markdown_text_str. do 2 f_equal.
  now apply Emphasis.clean_header.
Qed.

Lemma header_at_start_witness :
  clean_markdown_text (PyStr (repeat "#"%char 3 ++ lit "  " ++ lit "Set up"))
  = inr (PyStr (lit "Set up")).
Proof.
  rewrite (@header_at_start 3 (lit "  ") (lit "Set up")).
  - vm_compute. reflexivity.
  - lia.
  - reflexivity.
  - all_chars.
  - reflexivity.
Defined.




